(** * godot-openlipsync: streaming log-mel features and viseme scheduling

    A shallow embedding of [audio_processor.cpp], [lip_sync_context.cpp] and
    of [onnx_model.cpp] (its boundary with the runtime and the logic that
    resolves the input shape), followed by the properties proved about
    them.

    Conventions of the embedding.
    - C++ [float] and [double] are IEEE 754 binary32 and binary64 values
      ([spec_float] with the operations of [SpecFloat] at precision 24 and
      53), every operation rounding to nearest even as the hardware does.
    - The calls into the C math library ([cos], [sin], [log10], [pow]) are
      not code of the repository: they are the fields of a record [Libm]
      that the model takes as a parameter.
    - [int] configuration fields are [Z]; signed overflow is undefined in
      C++ and is not modelled.  Loop counters and container sizes, which
      never go below zero, are [nat].  The one conversion of an [int] to
      [size_t] that the code performs in a comparison is written out.
    - [std::vector] and [std::deque] are lists.  An access outside the
      container is undefined in C++; the model reads the default value and
      ignores the write there, and the theorems state the size conditions
      under which every access is inside.
    - A [for] loop over [0 .. n-1] is [for_loop n body]; a [while] loop
      that need not terminate takes fuel. *)

From Stdlib Require Import ZArith Lia Reals Lra Ring.
From Stdlib Require Import Floats.SpecFloat.
From stdpp Require Import base list strings.

Set Default Proof Using "Type".

(** ** Loops *)

(** [for (int i = 0; i < n; i++) s = body(i, s);] *)
Definition for_loop {S : Type} (n : nat) (body : nat -> S -> S) (s : S) : S :=
  fold_left (fun acc i => body i acc) (seq 0 n) s.

(** ** IEEE 754 arithmetic *)

(** binary32, the C++ [float]. *)
Module F32.
Definition prec : Z := 24.
Definition emax : Z := 128.
Definition float : Type := spec_float.

Definition add : float -> float -> float := SFadd prec emax.
Definition sub : float -> float -> float := SFsub prec emax.
Definition mul : float -> float -> float := SFmul prec emax.
Definition div : float -> float -> float := SFdiv prec emax.
Definition sqrt : float -> float := SFsqrt prec emax.
(** [x < y], [x <= y]; false as soon as one side is a NaN. *)
Definition ltb : float -> float -> bool := SFltb.
Definition leb : float -> float -> bool := SFleb.
Definition eqb : float -> float -> bool := SFeqb.

(** Conversion of an [int] ([(float)z], or the implicit conversion in
    mixed arithmetic). *)
Definition of_int (z : Z) : float := binary_normalize prec emax z 0 false.
(** Rounding of a binary64 value on assignment to a [float]. *)
Definition of_double (x : spec_float) : float :=
  match x with
  | S754_finite s m e => binary_normalize prec emax (cond_Zopp s (Zpos m)) e s
  | _ => x
  end.
(** [(int)x]: truncation toward zero.  Undefined in C++ when the value
    does not fit an [int]; the model returns what x86 returns there. *)
Definition to_int (x : float) : Z :=
  let v := match x with
           | S754_zero _ => 0%Z
           | S754_finite s m e =>
               cond_Zopp s (if (0 <=? e)%Z then Z.shiftl (Zpos m) e
                            else Z.shiftr (Zpos m) (- e))
           | _ => (- 2 ^ 31)%Z
           end in
  if ((- 2 ^ 31 <=? v) && (v <? 2 ^ 31))%Z then v else (- 2 ^ 31)%Z.

Definition is_nan (x : float) : bool :=
  match x with S754_nan => true | _ => false end.

Definition zero : float := S754_zero false.
Definition one : float := S754_finite false 8388608 (-23).
Definition half : float := S754_finite false 8388608 (-24).
Definition ten : float := S754_finite false 10485760 (-20).
(** [1e-10f] and [1e-8f], as the compiler rounds the literals. *)
Definition c1e_10 : float := S754_finite false 14411519 (-57).
Definition c1e_8 : float := S754_finite false 11258999 (-50).
(** [std::max(a, b)] is [(a < b) ? b : a]. *)
Definition max (a b : float) : float := if ltb a b then b else a.
End F32.

(** binary64, the C++ [double]: the type of [M_PI] and of every expression
    it takes part in. *)
Module F64.
Definition prec : Z := 53.
Definition emax : Z := 1024.
Definition double : Type := spec_float.

Definition add : double -> double -> double := SFadd prec emax.
Definition sub : double -> double -> double := SFsub prec emax.
Definition mul : double -> double -> double := SFmul prec emax.
Definition div : double -> double -> double := SFdiv prec emax.
Definition of_int (z : Z) : double := binary_normalize prec emax z 0 false.
(** A [float] operand promoted to [double]; exact. *)
Definition of_float (x : spec_float) : double :=
  match x with
  | S754_finite s m e => binary_normalize prec emax (cond_Zopp s (Zpos m)) e s
  | _ => x
  end.
(** [M_PI], 3.14159265358979323846 rounded to binary64. *)
Definition M_PI : double := S754_finite false 7074237752028440 (-51).
End F64.

Abbreviation float := F32.float.
Abbreviation double := F64.double.

#[global] Instance float_inhabited : Inhabited spec_float := populate (S754_zero false).

(** ** The C math library *)

(** The library functions the code calls, with the two exact results that
    ISO C (Annex F.10) fixes and that the analysis of degenerate filter
    banks relies on: [log10(1)] is [+0] and [pow(x, +0)] is [1] for every
    [x]. *)
Record Libm : Type := {
  lm_cos : double -> double;
  lm_cosf : float -> float;
  lm_sinf : float -> float;
  lm_log10f : float -> float;
  lm_powf : float -> float -> float;
  lm_log10f_one : lm_log10f F32.one = F32.zero;
  lm_powf_zero : forall x, lm_powf x F32.zero = F32.one
}.

(** ** Complex scalars *)

(** What [perform_fft] and [init_fft] need of [std::complex<float>]: the
    three arithmetic operations and the value [init_fft] stores in
    [trig_tables[i]] for a transform of size [n].  The class lets the same
    transform run on binary32 pairs (the processor) and on exact complex
    numbers (the statement of its correctness). *)
Class Scalar (K : Type) : Type := {
  czero : K;
  cadd : K -> K -> K;
  csub : K -> K -> K;
  cmul : K -> K -> K;
  twiddle : nat -> nat -> K
}.

Definition complex : Type := float * float.

(** [std::complex<float>]: componentwise sum and difference, and the
    textbook product (the value libstdc++ computes whenever no component
    of the product is a NaN). *)
Definition complex_add (a b : complex) : complex :=
  (F32.add (fst a) (fst b), F32.add (snd a) (snd b)).
Definition complex_sub (a b : complex) : complex :=
  (F32.sub (fst a) (fst b), F32.sub (snd a) (snd b)).
Definition complex_mul (a b : complex) : complex :=
  (F32.sub (F32.mul (fst a) (fst b)) (F32.mul (snd a) (snd b)),
   F32.add (F32.mul (fst a) (snd b)) (F32.mul (snd a) (fst b))).
(** [std::norm]: the squared magnitude. *)
Definition complex_norm (a : complex) : float :=
  F32.add (F32.mul (fst a) (fst a)) (F32.mul (snd a) (snd a)).

(** [float angle = -2.0f * M_PI * i / n_fft;
     trig_tables[i] = std::complex<float>(std::cos(angle), std::sin(angle));]
    The product with [M_PI] is a [double] expression, rounded to [float]
    when [angle] is initialised. *)
Definition complex_twiddle (lm : Libm) (i n : nat) : complex :=
  let angle :=
    F32.of_double
      (F64.div (F64.mul (F64.mul (F64.of_float (F32.of_int (-2))) F64.M_PI)
                        (F64.of_int (Z.of_nat i)))
               (F64.of_int (Z.of_nat n))) in
  (lm_cosf lm angle, lm_sinf lm angle).

Definition complex_scalar (lm : Libm) : Scalar complex := {|
  czero := (F32.zero, F32.zero);
  cadd := complex_add;
  csub := complex_sub;
  cmul := complex_mul;
  twiddle := complex_twiddle lm
|}.

#[global] Instance scalar_inhabited {K : Type} `{Scalar K} : Inhabited K := populate czero.

(** ** FFT Engine ([AudioProcessor::init_fft], [AudioProcessor::perform_fft]) *)

Section FFT.
Context {K : Type} `{Scalar K}.

(** [while (temp > 1) { temp >>= 1; levels++; }] *)
Fixpoint fft_levels_loop (fuel temp levels : nat) : nat :=
  match fuel with
  | O => levels
  | S fuel' =>
      if 1 <? temp then fft_levels_loop fuel' (Nat.shiftr temp 1) (S levels)
      else levels
  end.
(** [temp] at least halves in every round, so [n_fft] rounds are enough. *)
Definition fft_levels (n_fft : nat) : nat := fft_levels_loop n_fft n_fft 0.

(** [for (j < levels) { rev = (rev << 1) | (curr & 1); curr >>= 1; }] *)
Definition bit_reverse (levels i : nat) : nat :=
  fst (for_loop levels
         (fun _ '(rev, curr) =>
            (Nat.lor (Nat.shiftl rev 1) (Nat.land curr 1), Nat.shiftr curr 1))
         (0, i)).

(** [bit_reverse_table.resize(n_fft); for (i < n_fft) bit_reverse_table[i] = rev;] *)
Definition init_bit_reverse_table (n_fft : nat) (old : list nat) : list nat :=
  let levels := fft_levels n_fft in
  for_loop n_fft (fun i tbl => <[i := bit_reverse levels i]> tbl)
           (resize n_fft 0 old).

(** [trig_tables.resize(n_fft / 2); for (i < n_fft / 2) trig_tables[i] = ...;] *)
Definition init_trig_tables (n_fft : nat) (old : list K) : list K :=
  for_loop (n_fft / 2) (fun i tbl => <[i := twiddle i n_fft]> tbl)
           (resize (n_fft / 2) czero old).

(** [std::swap(data[i], data[j])] *)
Definition swap (data : list K) (i j : nat) : list K :=
  let a := data !!! i in
  let b := data !!! j in
  <[j := a]> (<[i := b]> data).

(** The bit-reverse permutation: the first loop of [perform_fft]. *)
Definition bit_reverse_permute (bit_reverse_table : list nat) (data : list K) : list K :=
  for_loop (length data)
    (fun i d =>
       let r := bit_reverse_table !!! i in
       if i <? r then swap d i r else d)
    data.

(** One butterfly: the body of the innermost loop. *)
Definition butterfly (trig_tables : list K) (step half_len i j : nat)
    (data : list K) : list K :=
  let u := data !!! (i + j) in
  let v := cmul (data !!! (i + j + half_len)) (trig_tables !!! (j * step)) in
  <[i + j + half_len := csub u v]> (<[i + j := cadd u v]> data).

(** [for (int i = 0; i < n; i += len) for (j < half_len) ...] *)
Fixpoint fft_groups (trig_tables : list K) (fuel n len i : nat)
    (data : list K) : list K :=
  match fuel with
  | O => data
  | S fuel' =>
      if i <? n then
        let half_len := Nat.shiftr len 1 in
        let step := n / len in
        fft_groups trig_tables fuel' n len (i + len)
          (for_loop half_len (butterfly trig_tables step half_len i) data)
      else data
  end.

(** [for (int len = 2; len <= n; len <<= 1) ...] *)
Fixpoint fft_stages (trig_tables : list K) (fuel n len : nat)
    (data : list K) : list K :=
  match fuel with
  | O => data
  | S fuel' =>
      if len <=? n then
        fft_stages trig_tables fuel' n (Nat.shiftl len 1)
          (fft_groups trig_tables n n len 0 data)
      else data
  end.

(** [perform_fft(data)].  [len] starts at 2 and doubles and [i] advances
    by [len >= 2], so [n] rounds of fuel are enough for both loops. *)
Definition perform_fft (bit_reverse_table : list nat) (trig_tables : list K)
    (data : list K) : list K :=
  let n := length data in
  fft_stages trig_tables n n 2 (bit_reverse_permute bit_reverse_table data).
End FFT.

(** ** Streaming Frame Processor ([class AudioProcessor]) *)

(** The members of [AudioProcessor].  [fft_buffer] is declared in the header
    and never used; it is left out. *)
Record AudioProcessor : Type := mkAudioProcessor {
  sample_rate : Z;
  hop_length : Z;
  window_length : Z;
  n_fft : Z;
  n_mels : Z;
  f_min : float;
  f_max : float;
  window : list float;
  window_buffer : list float;
  previous_samples : list float;
  mel_filter_bank : list float;
  fft_input : list complex;
  fft_output : list complex;
  bit_reverse_table : list nat;
  trig_tables : list complex
}.

Definition set_sample_rate_field (v : Z) (p : AudioProcessor) : AudioProcessor :=
  mkAudioProcessor v (hop_length p) (window_length p) (n_fft p) (n_mels p)
    (f_min p) (f_max p) (window p) (window_buffer p) (previous_samples p)
    (mel_filter_bank p) (fft_input p) (fft_output p) (bit_reverse_table p)
    (trig_tables p).
Definition set_hop_length_field (v : Z) (p : AudioProcessor) : AudioProcessor :=
  mkAudioProcessor (sample_rate p) v (window_length p) (n_fft p) (n_mels p)
    (f_min p) (f_max p) (window p) (window_buffer p) (previous_samples p)
    (mel_filter_bank p) (fft_input p) (fft_output p) (bit_reverse_table p)
    (trig_tables p).
Definition set_window_length_field (v : Z) (p : AudioProcessor) : AudioProcessor :=
  mkAudioProcessor (sample_rate p) (hop_length p) v (n_fft p) (n_mels p)
    (f_min p) (f_max p) (window p) (window_buffer p) (previous_samples p)
    (mel_filter_bank p) (fft_input p) (fft_output p) (bit_reverse_table p)
    (trig_tables p).
Definition set_n_fft_field (v : Z) (p : AudioProcessor) : AudioProcessor :=
  mkAudioProcessor (sample_rate p) (hop_length p) (window_length p) v (n_mels p)
    (f_min p) (f_max p) (window p) (window_buffer p) (previous_samples p)
    (mel_filter_bank p) (fft_input p) (fft_output p) (bit_reverse_table p)
    (trig_tables p).
Definition set_n_mels_field (v : Z) (p : AudioProcessor) : AudioProcessor :=
  mkAudioProcessor (sample_rate p) (hop_length p) (window_length p) (n_fft p) v
    (f_min p) (f_max p) (window p) (window_buffer p) (previous_samples p)
    (mel_filter_bank p) (fft_input p) (fft_output p) (bit_reverse_table p)
    (trig_tables p).
Definition set_f_range_fields (lo hi : float) (p : AudioProcessor) : AudioProcessor :=
  mkAudioProcessor (sample_rate p) (hop_length p) (window_length p) (n_fft p)
    (n_mels p) lo hi (window p) (window_buffer p) (previous_samples p)
    (mel_filter_bank p) (fft_input p) (fft_output p) (bit_reverse_table p)
    (trig_tables p).
Definition set_windows (w wb : list float) (p : AudioProcessor) : AudioProcessor :=
  mkAudioProcessor (sample_rate p) (hop_length p) (window_length p) (n_fft p)
    (n_mels p) (f_min p) (f_max p) w wb (previous_samples p)
    (mel_filter_bank p) (fft_input p) (fft_output p) (bit_reverse_table p)
    (trig_tables p).
Definition set_previous_samples (v : list float) (p : AudioProcessor) : AudioProcessor :=
  mkAudioProcessor (sample_rate p) (hop_length p) (window_length p) (n_fft p)
    (n_mels p) (f_min p) (f_max p) (window p) (window_buffer p) v
    (mel_filter_bank p) (fft_input p) (fft_output p) (bit_reverse_table p)
    (trig_tables p).
Definition set_mel_filter_bank (v : list float) (p : AudioProcessor) : AudioProcessor :=
  mkAudioProcessor (sample_rate p) (hop_length p) (window_length p) (n_fft p)
    (n_mels p) (f_min p) (f_max p) (window p) (window_buffer p)
    (previous_samples p) v (fft_input p) (fft_output p) (bit_reverse_table p)
    (trig_tables p).
Definition set_fft_state (fi fo : list complex) (brt : list nat) (tt : list complex)
    (p : AudioProcessor) : AudioProcessor :=
  mkAudioProcessor (sample_rate p) (hop_length p) (window_length p) (n_fft p)
    (n_mels p) (f_min p) (f_max p) (window p) (window_buffer p)
    (previous_samples p) (mel_filter_bank p) fi fo brt tt.

Section Processor.
Variable lm : Libm.
#[local] Existing Instance complex_scalar.
#[local] Hint Extern 0 Libm => exact lm : typeclass_instances.

(** [0.5f * (1.0f - std::cos(2.0f * M_PI * i / (window_length - 1)))]: a
    [double] expression because of [M_PI], rounded when stored in
    [window[i]]. *)
Definition hann_coefficient (window_length : Z) (i : nat) : float :=
  let arg :=
    F64.div (F64.mul (F64.mul (F64.of_float (F32.of_int 2)) F64.M_PI)
                     (F64.of_int (Z.of_nat i)))
            (F64.of_int (window_length - 1)) in
  F32.of_double
    (F64.mul (F64.of_float F32.half)
             (F64.sub (F64.of_float F32.one) (lm_cos lm arg))).

(** [AudioProcessor::init_window].  A negative [window_length] makes
    [resize] throw in C++; the model sizes the vectors at zero there. *)
Definition init_window (p : AudioProcessor) : AudioProcessor :=
  let n := Z.to_nat (window_length p) in
  let w0 := resize n F32.zero (window p) in
  let wb := resize n F32.zero (window_buffer p) in
  let w := for_loop n (fun i w => <[i := hann_coefficient (window_length p) i]> w) w0 in
  set_windows w wb p.

(** [AudioProcessor::reset] *)
Definition reset (p : AudioProcessor) : AudioProcessor :=
  let overlap_len := (window_length p - hop_length p)%Z in
  let overlap_len := if (overlap_len <? 0)%Z then 0%Z else overlap_len in
  set_previous_samples (replicate (Z.to_nat overlap_len) F32.zero) p.

(** [AudioProcessor::init_fft].  As for the window, a negative [n_fft] is
    outside the model. *)
Definition init_fft (p : AudioProcessor) : AudioProcessor :=
  let n := Z.to_nat (n_fft p) in
  set_fft_state
    (resize n czero (fft_input p))
    (resize n czero (fft_output p))
    (init_bit_reverse_table n (bit_reverse_table p))
    (init_trig_tables n (trig_tables p))
    p.

(** [AudioProcessor::hz_to_mel] *)
Definition hz_to_mel (hz : float) : float :=
  F32.mul (F32.of_int 2595)
          (lm_log10f lm (F32.add F32.one (F32.div hz (F32.of_int 700)))).

(** [AudioProcessor::mel_to_hz] *)
Definition mel_to_hz (mel : float) : float :=
  F32.mul (F32.of_int 700)
          (F32.sub (lm_powf lm F32.ten (F32.div mel (F32.of_int 2595))) F32.one).

(** The three vectors filled by the first loop of [init_mel_filter_bank]:
    [mel_points], [hz_points] and [bin_points]. *)
Definition mel_points_loop (sample_rate n_fft n_mels : Z) (f_min f_max : float)
    : list float * list float * list float :=
  let mel_min := hz_to_mel f_min in
  let mel_max := hz_to_mel f_max in
  let npts := Z.to_nat (n_mels + 2) in
  for_loop npts
    (fun i '(mel_points, hz_points, bin_points) =>
       let mel_points :=
         <[i := F32.add mel_min
                  (F32.div (F32.mul (F32.sub mel_max mel_min) (F32.of_int (Z.of_nat i)))
                           (F32.of_int (n_mels + 1)))]> mel_points in
       let hz_points := <[i := mel_to_hz (mel_points !!! i)]> hz_points in
       let bin_points :=
         <[i := F32.div (F32.mul (F32.of_int (n_fft + 1)) (hz_points !!! i))
                        (F32.of_int sample_rate)]> bin_points in
       (mel_points, hz_points, bin_points))
    (replicate npts F32.zero, replicate npts F32.zero, replicate npts F32.zero).

(** The weight of spectral bin [j] in the filter with bin positions
    [left], [center], [right]: the body of the inner loop. *)
Definition mel_weight (left center right : float) (j : nat) : float :=
  let jf := F32.of_int (Z.of_nat j) in
  if F32.leb left jf && F32.leb jf center then
    F32.div (F32.sub jf left) (F32.sub center left)
  else if F32.ltb center jf && F32.leb jf right then
    F32.div (F32.sub right jf) (F32.sub right center)
  else F32.zero.

(** The matrix [init_mel_filter_bank] builds from the configuration. *)
Definition build_mel_filter_bank (sample_rate n_fft n_mels : Z) (f_min f_max : float)
    : list float :=
  let num_spectra := (Z.quot n_fft 2 + 1)%Z in
  let bank := replicate (Z.to_nat (n_mels * num_spectra)) F32.zero in
  let bin_points := snd (mel_points_loop sample_rate n_fft n_mels f_min f_max) in
  for_loop (Z.to_nat n_mels)
    (fun i bank =>
       let left := bin_points !!! i in
       let center := bin_points !!! (i + 1) in
       let right := bin_points !!! (i + 2) in
       for_loop (Z.to_nat num_spectra)
         (fun j bank =>
            <[i * Z.to_nat num_spectra + j := mel_weight left center right j]> bank)
         bank)
    bank.

(** [AudioProcessor::init_mel_filter_bank] *)
Definition init_mel_filter_bank (p : AudioProcessor) : AudioProcessor :=
  set_mel_filter_bank
    (build_mel_filter_bank (sample_rate p) (n_fft p) (n_mels p) (f_min p) (f_max p))
    p.

(** The setters. *)
Definition set_sample_rate (p_rate : Z) (p : AudioProcessor) : AudioProcessor :=
  init_mel_filter_bank (set_sample_rate_field p_rate p).

Definition set_fft_size (p_size : Z) (p : AudioProcessor) : AudioProcessor :=
  init_mel_filter_bank (init_fft (set_n_fft_field p_size p)).

Definition set_hop_length (p_length : Z) (p : AudioProcessor) : AudioProcessor :=
  reset (set_hop_length_field p_length p).

Definition set_window_length (p_length : Z) (p : AudioProcessor) : AudioProcessor :=
  reset (init_window (set_window_length_field p_length p)).

Definition set_mel_bands (p_bands : Z) (p : AudioProcessor) : AudioProcessor :=
  init_mel_filter_bank (set_n_mels_field p_bands p).

Definition set_frequency_range (p_min p_max : float) (p : AudioProcessor) : AudioProcessor :=
  init_mel_filter_bank (set_f_range_fields p_min p_max p).

(** [AudioProcessor::AudioProcessor]: the member initialisers of the
    header, empty vectors, then the four initialisations. *)
Definition AudioProcessor_new : AudioProcessor :=
  reset (init_mel_filter_bank (init_fft (init_window
    (mkAudioProcessor 16000 160 400 1024 80 (F32.of_int 50) (F32.of_int 8000)
       [] [] [] [] [] [] [] [])))).

(** *** [AudioProcessor::process_frame] *)

(** Step 1, first loop: [window_buffer[i] = previous_samples[i]]. *)
Definition copy_overlap (previous_samples window_buffer : list float) : list float :=
  for_loop (length previous_samples)
    (fun i wb => <[i := previous_samples !!! i]> wb) window_buffer.

(** Step 1, second loop: the new samples behind the overlap, as far as
    the window buffer reaches. *)
Definition copy_new_samples (hop_length window_length : Z) (overlap_len : nat)
    (new_ptr window_buffer : list float) : list float :=
  for_loop (Z.to_nat hop_length)
    (fun i wb =>
       if (Z.of_nat (overlap_len + i) <? window_length)%Z
       then <[overlap_len + i := new_ptr !!! i]> wb else wb)
    window_buffer.

(** Step 1, third loop: the overlap for the next call. *)
Definition update_previous (hop_length window_length : Z)
    (window_buffer previous_samples : list float) : list float :=
  for_loop (length previous_samples)
    (fun i prev =>
       if (hop_length + Z.of_nat i <? window_length)%Z
       then <[i := window_buffer !!! Z.to_nat (hop_length + Z.of_nat i)]> prev
       else <[i := F32.zero]> prev)
    previous_samples.

(** Step 2: [std::fill] with zeros, then the windowed samples. *)
Definition prepare_fft_input (window_length : Z) (window_buffer window : list float)
    (fft_input : list complex) : list complex :=
  for_loop (Z.to_nat window_length)
    (fun i fi => <[i := (F32.mul (window_buffer !!! i) (window !!! i), F32.zero)]> fi)
    (replicate (length fft_input) (F32.zero, F32.zero)).

(** Step 4 and 5: power spectrum, mel filtering and the dB scale. *)
Definition mel_energies (n_fft n_mels : Z) (fft_input : list complex)
    (mel_filter_bank : list float) : list float :=
  let num_spectra := Z.to_nat (Z.quot n_fft 2 + 1) in
  for_loop (Z.to_nat n_mels)
    (fun i mel =>
       let sum :=
         for_loop num_spectra
           (fun j sum =>
              let power := complex_norm (fft_input !!! j) in
              F32.add sum (F32.mul power (mel_filter_bank !!! (i * num_spectra + j))))
           F32.zero in
       <[i := F32.mul F32.ten (lm_log10f lm (F32.max sum F32.c1e_10))]> mel)
    (replicate (Z.to_nat n_mels) F32.zero).

(** Step 6: the frame normalised against its own mean and deviation. *)
Definition normalize_frame (n_mels : Z) (mel : list float) : list float :=
  let n := Z.to_nat n_mels in
  let sum := for_loop n (fun i sum => F32.add sum (mel !!! i)) F32.zero in
  let mean := F32.div sum (F32.of_int n_mels) in
  let sum_sq :=
    for_loop n
      (fun i sum_sq =>
         let diff := F32.sub (mel !!! i) mean in
         F32.add sum_sq (F32.mul diff diff))
      F32.zero in
  let std := F32.sqrt (F32.div sum_sq (F32.of_int n_mels)) in
  let std := if F32.ltb std F32.c1e_8 then F32.c1e_8 else std in
  for_loop n (fun i mel => <[i := F32.div (F32.sub (mel !!! i) mean) std]> mel) mel.

(** [process_frame]: the returned array and the processor afterwards.
    The message printed on a size mismatch is not modelled. *)
Definition process_frame (p : AudioProcessor) (p_samples : list float)
    : list float * AudioProcessor :=
  if negb (Z.of_nat (length p_samples) =? hop_length p)%Z then ([], p)
  else
    let overlap_len := length (previous_samples p) in
    let wb := copy_overlap (previous_samples p) (window_buffer p) in
    let wb := copy_new_samples (hop_length p) (window_length p) overlap_len p_samples wb in
    let prev := update_previous (hop_length p) (window_length p) wb (previous_samples p) in
    let fi := prepare_fft_input (window_length p) wb (window p) (fft_input p) in
    let fi := perform_fft (bit_reverse_table p) (trig_tables p) fi in
    let mel := mel_energies (n_fft p) (n_mels p) fi (mel_filter_bank p) in
    let mel := normalize_frame (n_mels p) mel in
    (mel,
     set_previous_samples prev
       (set_windows (window p) wb
          (set_fft_state fi (fft_output p) (bit_reverse_table p) (trig_tables p) p))).
End Processor.

(** ** Inference engine boundary ([class OnnxModel]) *)

(** An open ONNX Runtime session, seen from [run_inference]: the array it
    returns for an input array (empty when the shape check or the run
    fails).  The runtime is not code of the repository. *)
Definition Session : Type := list float -> list float.

Record OnnxModel : Type := mkOnnxModel { session : option Session }.

Definition OnnxModel_new : OnnxModel := mkOnnxModel None.

(** [OnnxModel::load_model]: the previous session is deleted first; [ort]
    is the runtime opening the file, [None] when it throws. *)
Definition OnnxModel_load_model (ort : string -> option Session) (p_path : string)
    (m : OnnxModel) : bool * OnnxModel :=
  match ort p_path with
  | Some s => (true, mkOnnxModel (Some s))
  | None => (false, mkOnnxModel None)
  end.

(** [OnnxModel::run_inference] *)
Definition run_inference (m : OnnxModel) (p_input : list float) : list float :=
  match session m with
  | None => []
  | Some run => run p_input
  end.

(** *** The input shape ([OnnxModel::run_inference], the shape logic of
    the [try] block)

    [input_shape] is the shape the session declares for its first input, a
    negative entry standing for a dynamic dimension.  The products are
    [int64_t]; as for [int], overflow is not modelled. *)

(** The first loop: [known_size], [dynamic_dim_index] and [input_shape]
    with every dynamic dimension but the first set to 1. *)
Definition resolve_dynamic_dims (input_shape : list Z) : Z * Z * list Z :=
  for_loop (length input_shape)
    (fun i '(known_size, dynamic_dim_index, input_shape) =>
       if (input_shape !!! i <? 0)%Z then
         if negb (dynamic_dim_index =? -1)%Z
         then (known_size, dynamic_dim_index, <[i := 1%Z]> input_shape)
         else (known_size, Z.of_nat i, input_shape)
       else ((known_size * input_shape !!! i)%Z, dynamic_dim_index, input_shape))
    (1%Z, (-1)%Z, input_shape).

(** What the shape logic ends in: the shape handed to [CreateTensor], the
    error path that prints a message and returns the empty array, or the
    remainder of a division by zero, which C++ leaves undefined. *)
Inductive ShapeCheck : Type :=
| ShapeResolved (input_shape : list Z)
| ShapeRejected
| ShapeUndefined.

(** The loop and the test that follows it, for an input of [input_size]
    values. *)
Definition resolve_input_shape (input_shape : list Z) (input_size : Z) : ShapeCheck :=
  let '(known_size, dynamic_dim_index, input_shape) :=
    resolve_dynamic_dims input_shape in
  if negb (dynamic_dim_index =? -1)%Z then
    if (known_size =? 0)%Z then ShapeUndefined
    else if negb (Z.rem input_size known_size =? 0)%Z then ShapeRejected
    else ShapeResolved
           (<[Z.to_nat dynamic_dim_index := Z.quot input_size known_size]> input_shape)
  else if negb (input_size =? known_size)%Z then ShapeRejected
  else ShapeResolved input_shape.

(** ** Context Buffer Scheduler ([class LipSyncContext]) *)

(** The members of [LipSyncContext]; [model] is [None] while the handle is
    null.  [resample_ratio] is declared and never used; it is left out. *)
Record LipSyncContext : Type := mkLipSyncContext {
  processor : AudioProcessor;
  model : option OnnxModel;
  audio_buffer : list float;
  feature_buffer : list (list float);
  context_size : Z;
  target_sample_rate : Z;
  resample_fraction : float
}.

(** The value an [int] takes when a comparison with a [size_t] converts
    it. *)
Definition to_size_t (z : Z) : Z := (z mod 2 ^ 64)%Z.

(** [while (feature_buffer.size() > limit) feature_buffer.pop_front();] *)
Fixpoint trim_front {A : Type} (limit : Z) (buf : list A) : list A :=
  match buf with
  | [] => []
  | _ :: rest =>
      if (Z.of_nat (length buf) >? limit)%Z then trim_front limit rest else buf
  end.

(** [LipSyncContext::set_context_size] *)
Definition set_context_size (p_frames : Z) (c : LipSyncContext) : LipSyncContext :=
  mkLipSyncContext (processor c) (model c) (audio_buffer c)
    (trim_front (to_size_t p_frames) (feature_buffer c))
    p_frames (target_sample_rate c) (resample_fraction c).

(** [LipSyncContext::reset] *)
Definition LipSyncContext_reset (c : LipSyncContext) : LipSyncContext :=
  mkLipSyncContext (reset (processor c)) (model c) [] []
    (context_size c) (target_sample_rate c) F32.zero.

(** [LipSyncContext::load_model] *)
Definition load_model (ort : string -> option Session) (p_path : string)
    (c : LipSyncContext) : bool * LipSyncContext :=
  let m := match model c with None => OnnxModel_new | Some m => m end in
  let '(success, m) := OnnxModel_load_model ort p_path m in
  let c := mkLipSyncContext (processor c) (Some m) (audio_buffer c)
             (feature_buffer c) (context_size c) (target_sample_rate c)
             (resample_fraction c) in
  (success, if success then LipSyncContext_reset c else c).

(** [input[i]] for an [int] index; outside the array, where C++ leaves the
    read undefined, the default value. *)
Definition vector_at (v : list float) (i : Z) : float :=
  if (i <? 0)%Z then F32.zero else v !!! Z.to_nat i.

(** The interpolation loop of [_resample_and_push]:
    [while (current_pos < count - 1) { ...; current_pos += ratio; }].
    It does not terminate when [ratio] is zero, negative or a NaN, so it
    takes fuel; the result is the final cursor and the buffer. *)
Fixpoint resample_loop (fuel : nat) (input : list float) (count : Z)
    (ratio current_pos : float) (audio_buffer : list float)
    : option (float * list float) :=
  match fuel with
  | O => None
  | S fuel' =>
      if F32.ltb current_pos (F32.of_int (count - 1)) then
        let idx := F32.to_int current_pos in
        let t := F32.sub current_pos (F32.of_int idx) in
        let s0 := vector_at input idx in
        let s1 := vector_at input (idx + 1) in
        let val := F32.add s0 (F32.mul (F32.sub s1 s0) t) in
        resample_loop fuel' input count ratio (F32.add current_pos ratio)
          (audio_buffer ++ [val])
      else Some (current_pos, audio_buffer)
  end.

(** The phase carried to the next chunk:
    [resample_fraction = current_pos - count;
     if (resample_fraction < 0) resample_fraction += ratio;] *)
Definition carry_fraction (count : Z) (ratio current_pos : float) : float :=
  let resample_fraction := F32.sub current_pos (F32.of_int count) in
  if F32.ltb resample_fraction F32.zero then F32.add resample_fraction ratio
  else resample_fraction.

(** [LipSyncContext::_resample_and_push]: the new [audio_buffer] and
    [resample_fraction]. *)
Definition _resample_and_push (fuel : nat) (target_sample_rate : Z)
    (audio_buffer : list float) (resample_fraction : float)
    (input : list float) (source_rate : Z) : option (list float * float) :=
  let count := Z.of_nat (length input) in
  if (count =? 0)%Z then Some (audio_buffer, resample_fraction)
  else if negb (source_rate =? target_sample_rate)%Z then
    let ratio := F32.div (F32.of_int source_rate) (F32.of_int target_sample_rate) in
    match resample_loop fuel input count ratio resample_fraction audio_buffer with
    | None => None
    | Some (current_pos, audio_buffer) =>
        Some (audio_buffer, carry_fraction count ratio current_pos)
    end
  else Some (audio_buffer ++ input, resample_fraction).

(** Step 1 of [process]: [mono_input[i] = (ptr[i].x + ptr[i].y) * 0.5f]. *)
Definition downmix (p_audio_data : list (float * float)) : list float :=
  let sample_count := length p_audio_data in
  for_loop sample_count
    (fun i mono =>
       let v := p_audio_data !!! i in
       <[i := F32.mul (F32.add (fst v) (snd v)) F32.half]> mono)
    (replicate sample_count F32.zero).

(** The flattening loop of step 4: [dest[i * n_mels + j] = frame[j]]. *)
Definition flatten_features (feature_buffer : list (list float))
    (n_frames n_mels : nat) : list float :=
  for_loop n_frames
    (fun i dest =>
       let frame := feature_buffer !!! i in
       for_loop n_mels (fun j dest => <[i * n_mels + j := frame !!! j]> dest) dest)
    (replicate (n_frames * n_mels) F32.zero).

(** The extraction of the last frame's prediction from a non-empty
    output. *)
Definition extract_last_frame (output : list float) (n_frames : nat) : list float :=
  let num_visemes := length output / n_frames in
  let start_idx := (n_frames - 1) * num_visemes in
  for_loop num_visemes
    (fun i result => <[i := output !!! (start_idx + i)]> result)
    (replicate num_visemes F32.zero).

(** Step 4 of [process]. *)
Definition infer (m : OnnxModel) (new_features_added : bool)
    (feature_buffer : list (list float)) : list float :=
  if new_features_added && negb (bool_decide (feature_buffer = [])) then
    let n_frames := length feature_buffer in
    let n_mels := 80 in
    let flat_input := flatten_features feature_buffer n_frames n_mels in
    let output := run_inference m flat_input in
    if 0 <? length output then extract_last_frame output n_frames else []
  else [].

Section Scheduler.
Variable lm : Libm.

(** [LipSyncContext::LipSyncContext] *)
Definition LipSyncContext_new : LipSyncContext :=
  mkLipSyncContext
    (set_mel_bands lm 80
       (set_window_length lm 400
          (set_hop_length 160 (set_sample_rate lm 16000 (AudioProcessor_new lm)))))
    None [] [] 100 16000 F32.zero.

(** Step 3 of [process]:
    [while (audio_buffer.size() >= hop_length) { ... }] with the
    hard-coded [hop_length = 160].  The state of the loop is the
    processor, the two buffers and [new_features_added]. *)
Fixpoint hop_loop (fuel : nat) (context_size : Z) (p : AudioProcessor)
    (audio_buffer : list float) (feature_buffer : list (list float))
    (new_features_added : bool)
    : AudioProcessor * list float * list (list float) * bool :=
  match fuel with
  | O => (p, audio_buffer, feature_buffer, new_features_added)
  | S fuel' =>
      let hop_length := 160 in
      if hop_length <=? length audio_buffer then
        let chunk := take hop_length audio_buffer in
        let '(features, p) := process_frame lm p chunk in
        let '(feature_buffer, new_features_added) :=
          if 0 <? length features
          then (feature_buffer ++ [features], true)
          else (feature_buffer, new_features_added) in
        let audio_buffer := drop hop_length audio_buffer in
        let feature_buffer :=
          if (Z.of_nat (length feature_buffer) >? to_size_t context_size)%Z
          then tail feature_buffer else feature_buffer in
        hop_loop fuel' context_size p audio_buffer feature_buffer new_features_added
      else (p, audio_buffer, feature_buffer, new_features_added)
  end.

(** Steps 1 to 3 of [process]: downmix, resample and buffer, then the hop
    loop.  The result is [new_features_added] and the context as step 4
    finds it, or [None] when the resampling loop is still running after
    [fuel] rounds.  Every round of the hop loop removes 160 samples, so
    the length of the buffer is fuel enough for it. *)
Definition process_hops (fuel : nat) (m : OnnxModel) (c : LipSyncContext)
    (p_audio_data : list (float * float)) (p_source_sample_rate : Z)
    : option (bool * LipSyncContext) :=
  let mono_input := downmix p_audio_data in
  match _resample_and_push fuel (target_sample_rate c) (audio_buffer c)
          (resample_fraction c) mono_input p_source_sample_rate with
  | None => None
  | Some (audio_buffer, resample_fraction) =>
      let '(p, audio_buffer, feature_buffer, new_features_added) :=
        hop_loop (length audio_buffer) (context_size c) (processor c)
          audio_buffer (feature_buffer c) false in
      Some (new_features_added,
            mkLipSyncContext p (Some m) audio_buffer feature_buffer
              (context_size c) (target_sample_rate c) resample_fraction)
  end.

(** [LipSyncContext::process]: the returned array and the context
    afterwards. *)
Definition process (fuel : nat) (c : LipSyncContext)
    (p_audio_data : list (float * float)) (p_source_sample_rate : Z)
    : option (list float * LipSyncContext) :=
  match model c with
  | None => Some ([], c)
  | Some m =>
      let sample_count := length p_audio_data in
      if sample_count =? 0 then Some ([], c)
      else
        match process_hops fuel m c p_audio_data p_source_sample_rate with
        | None => None
        | Some (new_features_added, c) =>
            Some (infer m new_features_added (feature_buffer c), c)
        end
  end.
End Scheduler.

(** ** A sample math library

    An instance of [Libm] to run the model on concrete inputs: truncated
    power series evaluated in binary64.  Nothing proved for every [Libm]
    depends on it. *)
Module RefLibm.
Definition d (z : Z) : double := F64.of_int z.

(** Partial sums of an alternating series in [x2]: each term is the
    previous one times [- x2 / ((k + 1) (k + 2))]. *)
Fixpoint alt_series (n : nat) (x2 term acc : double) (k : Z) : double :=
  match n with
  | O => acc
  | S n' =>
      let term := F64.div (F64.mul (SFopp term) x2) (d ((k + 1) * (k + 2))) in
      alt_series n' x2 term (F64.add acc term) (k + 2)
  end.

Definition cos (x : double) : double := alt_series 20 (F64.mul x x) (d 1) (d 1) 0.
Definition sin (x : double) : double := alt_series 20 (F64.mul x x) x x 1.

(** [2 * atanh z], the sum of [2 z^(2k+1) / (2k+1)]. *)
Fixpoint atanh2_series (n : nat) (z2 pow acc : double) (k : Z) : double :=
  match n with
  | O => F64.mul (d 2) acc
  | S n' =>
      let pow := F64.mul pow z2 in
      atanh2_series n' z2 pow (F64.add acc (F64.div pow (d (k + 2)))) (k + 2)
  end.

(** The logarithm of a mantissa in [[1/2, 1)]. *)
Definition ln_mantissa (m : double) : double :=
  let z := F64.div (F64.sub m (d 1)) (F64.add m (d 1)) in
  atanh2_series 20 (F64.mul z z) z z 1.

Definition ln2 : double := SFopp (ln_mantissa (F64.div (d 1) (d 2))).

Definition ln (x : double) : double :=
  if SFltb (d 0) x then
    let '(m, e) := SFfrexp F64.prec F64.emax x in
    F64.add (F64.mul (d e) ln2) (ln_mantissa m)
  else S754_nan.

Fixpoint exp_series (n : nat) (x term acc : double) (k : Z) : double :=
  match n with
  | O => acc
  | S n' =>
      let term := F64.div (F64.mul term x) (d (k + 1)) in
      exp_series n' x term (F64.add acc term) (k + 1)
  end.

Definition exp (x : double) : double := exp_series 40 x (d 1) (d 1) 0.

Definition cosf (x : float) : float := F32.of_double (cos (F64.of_float x)).
Definition sinf (x : float) : float := F32.of_double (sin (F64.of_float x)).
Definition log10f (x : float) : float :=
  F32.of_double (F64.div (ln (F64.of_float x)) (ln (d 10))).
Definition powf (x y : float) : float :=
  match y with
  | S754_zero _ => F32.one
  | _ => F32.of_double (exp (F64.mul (F64.of_float y) (ln (F64.of_float x))))
  end.

Definition log10f_one : log10f F32.one = F32.zero := eq_refl.
Definition powf_zero (x : float) : powf x F32.zero = F32.one := eq_refl.

Definition libm : Libm :=
  Build_Libm cos cosf sinf log10f powf log10f_one powf_zero.
End RefLibm.

(** * Specification-level definitions *)

(** ** Fourier transform *)

(** The reversal of the [L] low bits of [i], most significant result bit
    first. *)
Fixpoint bitrev (L i : nat) : nat :=
  match L with
  | O => 0
  | S L' => (i mod 2) * 2 ^ L' + bitrev L' (i / 2)
  end.







(** The radix-2 decimation-in-time recursion of Cooley and Tukey, over
    operations given explicitly.  [dit s m x k] is element [k] of the
    transform of the [2 ^ s] samples [x 0 .. x (2 ^ s - 1)], inside a
    transform of size [2 ^ (s + m)] whose root of unity has the powers
    [w 0, w 1, ...]: the transforms [even] and [odd] of the samples of
    even and of odd index are combined as [even + odd * w] in the first
    half of the output and as [even - odd * w] in the second half. *)
Section CooleyTukey.
Context {K : Type}.
Variables (add sub mul : K -> K -> K) (w : nat -> K).


End CooleyTukey.






(** ** Mel filter bank *)

(** The reference definition of the filter bank, worded as the
    specification words it. *)
Section MelReference.
Variable lm : Libm.
Variables (sample_rate n_fft n_mels : Z) (f_min f_max : float).

(** Point [i] of the [n_mels + 2] mel points evenly spaced between
    [hz_to_mel f_min] and [hz_to_mel f_max]. *)
Definition ref_mel_point (i : nat) : float :=
  let mel_min := hz_to_mel lm f_min in
  let mel_max := hz_to_mel lm f_max in
  F32.add mel_min
    (F32.div (F32.mul (F32.sub mel_max mel_min) (F32.of_int (Z.of_nat i)))
             (F32.of_int (n_mels + 1))).

(** Its bin position: [(n_fft + 1) * hz / sample_rate]. *)
Definition ref_bin_point (i : nat) : float :=
  F32.div (F32.mul (F32.of_int (n_fft + 1)) (mel_to_hz lm (ref_mel_point i)))
          (F32.of_int sample_rate).

(** The triangle: rising on [left <= j <= center], falling on
    [center < j <= right], zero elsewhere. *)
Definition ref_triangle (left center right : float) (j : nat) : float :=
  let jf := F32.of_int (Z.of_nat j) in
  if F32.leb left jf && F32.leb jf center then
    F32.div (F32.sub jf left) (F32.sub center left)
  else if F32.ltb center jf && F32.leb jf right then
    F32.div (F32.sub right jf) (F32.sub right center)
  else F32.zero.

(** Entry [(i, j)] of the matrix. *)
Definition ref_mel_filter_bank (i j : nat) : float :=
  ref_triangle (ref_bin_point i) (ref_bin_point (i + 1)) (ref_bin_point (i + 2)) j.

(** The matrix, [n_mels] rows of [n_fft / 2 + 1] bins, row after row. *)
Definition ref_mel_matrix : list float :=
  flat_map (fun i => map (ref_mel_filter_bank i) (seq 0 (Z.to_nat (n_fft / 2 + 1))))
           (seq 0 (Z.to_nat n_mels)).
End MelReference.

(** A zero of either sign, or a NaN. *)
Definition zero_or_nan (x : spec_float) : Prop :=
  match x with S754_zero _ | S754_nan => True | _ => False end.

(** A degenerate configuration: [f_min = f_max = 0]. *)
Definition degenerate_processor : AudioProcessor :=
  set_frequency_range RefLibm.libm F32.zero F32.zero
    (set_mel_bands RefLibm.libm 1 (set_fft_size RefLibm.libm 2
       (AudioProcessor_new RefLibm.libm))).

(** ** Processor states *)

(** The sizes the buffers of a processor have in every state the
    constructor, the setters and [process_frame] reach. *)
Definition buffers_sized (p : AudioProcessor) : Prop :=
  length (window_buffer p) = Z.to_nat (window_length p) /\
  length (previous_samples p) =
    Z.to_nat (Z.max 0 (window_length p - hop_length p)).

(** The processors a host can reach: the constructor, then setters,
    [reset] and [process_frame] in any order. *)
Inductive processor_reachable (lm : Libm) : AudioProcessor -> Prop :=
| reach_new : processor_reachable lm (AudioProcessor_new lm)
| reach_set_sample_rate v p :
    processor_reachable lm p -> processor_reachable lm (set_sample_rate lm v p)
| reach_set_fft_size v p :
    processor_reachable lm p -> processor_reachable lm (set_fft_size lm v p)
| reach_set_hop_length v p :
    processor_reachable lm p -> processor_reachable lm (set_hop_length v p)
| reach_set_window_length v p :
    processor_reachable lm p -> processor_reachable lm (set_window_length lm v p)
| reach_set_mel_bands v p :
    processor_reachable lm p -> processor_reachable lm (set_mel_bands lm v p)
| reach_set_frequency_range lo hi p :
    processor_reachable lm p ->
    processor_reachable lm (set_frequency_range lm lo hi p)
| reach_reset p :
    processor_reachable lm p -> processor_reachable lm (reset p)
| reach_process_frame samples p :
    processor_reachable lm p ->
    processor_reachable lm (snd (process_frame lm p samples)).

(** A small processor: window of 2, hop of 1, so an overlap of one
    sample. *)
Definition small_processor : AudioProcessor :=
  set_window_length RefLibm.libm 2 (set_hop_length 1 (AudioProcessor_new RefLibm.libm)).

(** Steps 2 to 6 of [process_frame]: the feature vector computed from a
    filled window buffer. *)
Definition frame_features (lm : Libm) (p : AudioProcessor) (wb : list float)
    : list float :=
  let fi := prepare_fft_input (window_length p) wb (window p) (fft_input p) in
  let fi := perform_fft (H := complex_scalar lm) (bit_reverse_table p) (trig_tables p) fi in
  normalize_frame (n_mels p)
    (mel_energies lm (n_fft p) (n_mels p) fi (mel_filter_bank p)).

(** The processor after [process_frame] on each chunk in turn. *)
Definition process_frames (lm : Libm) (p : AudioProcessor)
    (chunks : list (list float)) : AudioProcessor :=
  fold_left (fun p chunk => snd (process_frame lm p chunk)) chunks p.

(** The frames [process_frame] returns for the chunks in turn, the
    processor being carried from one call to the next. *)
Fixpoint frames_of (lm : Libm) (p : AudioProcessor) (chunks : list (list float))
    : list (list float) :=
  match chunks with
  | [] => []
  | chunk :: rest =>
      fst (process_frame lm p chunk)
        :: frames_of lm (snd (process_frame lm p chunk)) rest
  end.

(** Two processors with the same configuration and derived tables, whose
    scratch buffers have the same sizes. *)
Definition same_setup (p q : AudioProcessor) : Prop :=
  sample_rate p = sample_rate q /\ hop_length p = hop_length q /\
  window_length p = window_length q /\ n_fft p = n_fft q /\
  n_mels p = n_mels q /\ f_min p = f_min q /\ f_max p = f_max q /\
  window p = window q /\ mel_filter_bank p = mel_filter_bank q /\
  fft_output p = fft_output q /\ bit_reverse_table p = bit_reverse_table q /\
  trig_tables p = trig_tables q /\
  length (window_buffer p) = length (window_buffer q) /\
  length (fft_input p) = length (fft_input q).

(** The small processor with a hop of 3, longer than its window of 2. *)
Definition long_hop_processor : AudioProcessor := set_hop_length 3 small_processor.

(** ** Scheduler calls and states *)

(** The calls a host can make on a context through its bound methods. *)
Inductive Call : Type :=
| CallLoadModel (p_path : string)
| CallSetContextSize (p_frames : Z)
| CallProcess (fuel : nat) (p_audio_data : list (float * float))
    (p_source_sample_rate : Z)
| CallReset.

(** The context after a call, when the call returns. *)
Definition run_call (lm : Libm) (ort : string -> option Session) (call : Call)
    (c : LipSyncContext) : option LipSyncContext :=
  match call with
  | CallLoadModel p_path => Some (snd (load_model ort p_path c))
  | CallSetContextSize p_frames => Some (set_context_size p_frames c)
  | CallProcess fuel p_audio_data rate => snd <$> process lm fuel c p_audio_data rate
  | CallReset => Some (LipSyncContext_reset c)
  end.

Fixpoint run_calls (lm : Libm) (ort : string -> option Session) (calls : list Call)
    (c : LipSyncContext) : option LipSyncContext :=
  match calls with
  | [] => Some c
  | call :: rest =>
      match run_call lm ort call c with
      | None => None
      | Some c' => run_calls lm ort rest c'
      end
  end.

(** A capacity that is a non-negative [int]. *)
Definition capacity_ok (call : Call) : Prop :=
  match call with
  | CallSetContextSize p_frames => (0 <= p_frames < 2 ^ 31)%Z
  | _ => True
  end.

(** The Context Window holds at most [context_size] frames. *)
Definition window_bounded (c : LipSyncContext) : Prop :=
  (Z.of_nat (length (feature_buffer c)) <= context_size c)%Z.

(** A model has been loaded: the handle holds an open session. *)
Definition model_loaded (c : LipSyncContext) : bool :=
  match model c with
  | Some m => match session m with Some _ => true | None => false end
  | None => false
  end.

(** A session that answers every input with the same five values, and a
    new context that loaded it. *)
Definition five_value_session : Session :=
  fun _ => [F32.one; F32.half; F32.ten; F32.one; F32.zero].

Definition loaded_context : LipSyncContext :=
  snd (load_model (fun _ => Some five_value_session) "model.onnx"
         (LipSyncContext_new RefLibm.libm)).

(** Two hops of stereo audio, 320 pairs. *)
Definition two_hop_block : list (float * float) := replicate 320 (F32.one, F32.half).

(** A new context on which the one [load_model] call failed: the handle is
    instantiated, no session is open. *)
Definition failed_load_context : LipSyncContext :=
  snd (load_model (fun _ => None) "missing.onnx" (LipSyncContext_new RefLibm.libm)).

(** The chunks the hop loop of [process] takes from the accumulation
    buffer, in order: as many blocks of 160 samples as the buffer holds. *)
Definition hop_chunks (audio_buffer : list float) : list (list float) :=
  map (fun i => take 160 (drop (160 * i) audio_buffer))
      (seq 0 (length audio_buffer / 160)).

(** The last [n] elements of a list, all of them when it is shorter. *)
Definition last_n {A : Type} (n : nat) (l : list A) : list A :=
  drop (length l - n) l.

(** A host that loads a model, sets a capacity of one frame and sends two
    hops of audio, and the context it is left with. *)
Definition evicting_calls : list Call :=
  [CallLoadModel "model.onnx"; CallSetContextSize 1;
   CallProcess 1 two_hop_block 16000].

Definition evicting_context : LipSyncContext :=
  default (LipSyncContext_new RefLibm.libm)
    (run_calls RefLibm.libm (fun _ => Some five_value_session) evicting_calls
       (LipSyncContext_new RefLibm.libm)).

(** The loaded context after two hops of audio: two frames in the
    window. *)
Definition two_frame_context : LipSyncContext :=
  match process RefLibm.libm 1 loaded_context two_hop_block 16000 with
  | Some (_, c) => c
  | None => loaded_context
  end.

(** The configuration the constructor of [LipSyncContext] gives its
    processor, with the sizes that follow from it: what the constants
    hard-coded in [process] (a hop of 160 samples, frames of 80 values)
    rely on. *)
Definition context_configured (c : LipSyncContext) : Prop :=
  sample_rate (processor c) = 16000%Z /\ hop_length (processor c) = 160%Z /\
  window_length (processor c) = 400%Z /\ n_fft (processor c) = 1024%Z /\
  n_mels (processor c) = 80%Z /\ target_sample_rate c = 16000%Z /\
  buffers_sized (processor c) /\
  Forall (fun f => length f = 80) (feature_buffer c).

(** A context whose processor was given a hop of 256 samples through
    [get_processor]. *)
Definition rehopped_context : LipSyncContext :=
  mkLipSyncContext (set_hop_length 256 (processor loaded_context))
    (model loaded_context) (audio_buffer loaded_context)
    (feature_buffer loaded_context) (context_size loaded_context)
    (target_sample_rate loaded_context) (resample_fraction loaded_context).

(** ** Input shapes *)

(** The number of elements of a tensor of the given shape. *)
Definition element_count (shape : list Z) : Z := foldr Z.mul 1%Z shape.

(** The loop of [resolve_dynamic_dims] as a recursion on the dimensions
    still to visit, [i] being the index of the first of them. *)
Fixpoint scan_dims (known_size dynamic_dim_index : Z) (i : nat) (rest : list Z)
    : Z * Z * list Z :=
  match rest with
  | [] => (known_size, dynamic_dim_index, [])
  | d :: rest =>
      if (d <? 0)%Z then
        if negb (dynamic_dim_index =? -1)%Z
        then let '(k, dyn, r) := scan_dims known_size dynamic_dim_index (S i) rest in
             (k, dyn, 1%Z :: r)
        else let '(k, dyn, r) := scan_dims known_size (Z.of_nat i) (S i) rest in
             (k, dyn, d :: r)
      else let '(k, dyn, r) := scan_dims (known_size * d) dynamic_dim_index (S i) rest in
           (k, dyn, d :: r)
  end.

(** * Properties *)

(** ** Loops and arrays *)

Lemma for_loop_S {S : Type} (n : nat) (body : nat -> S -> S) (s : S) :
  for_loop (Datatypes.S n) body s = body n (for_loop n body s).
Proof.
  unfold for_loop. rewrite seq_S, fold_left_app. reflexivity.
Qed.

(** The invariant rule of a counted loop. *)
Lemma for_loop_ind {S : Type} (P : nat -> S -> Prop) (n : nat)
    (body : nat -> S -> S) (s : S) :
  P 0 s ->
  (forall i acc, i < n -> P i acc -> P (Datatypes.S i) (body i acc)) ->
  P n (for_loop n body s).
Proof.
  intros H0 Hstep. induction n as [|n IH].
  - exact H0.
  - rewrite for_loop_S. apply Hstep; [lia|]. apply IH.
    intros i acc Hi. apply Hstep. lia.
Qed.

(** A loop that stores [f i] at index [i]. *)
Lemma fill_loop_spec {A : Type} (n : nat) (f : nat -> A) (l : list A) :
  length (for_loop n (fun i acc => <[i := f i]> acc) l) = length l /\
  forall k, for_loop n (fun i acc => <[i := f i]> acc) l !! k =
            if decide (k < n /\ k < length l) then Some (f k) else l !! k.
Proof.
  set (P := fun (m : nat) (acc : list A) =>
    length acc = length l /\
    forall k, acc !! k = if decide (k < m /\ k < length l) then Some (f k) else l !! k).
  apply (for_loop_ind P); unfold P.
  - split; [done|]. intros k. case_decide; [lia|done].
  - intros i acc Hi [Hlen Hacc]. split; [by rewrite length_insert|].
    intros k. destruct (decide (i = k)) as [->|Hne].
    + destruct (decide (k < length l)).
      * rewrite list_lookup_insert_eq by lia. case_decide; [done|lia].
      * rewrite list_insert_ge by lia. rewrite Hacc.
        repeat case_decide; try lia; done.
    + rewrite list_lookup_insert_ne by done. rewrite Hacc.
      repeat case_decide; try lia; done.
Qed.

Lemma fill_loop_length {A : Type} (n : nat) (f : nat -> A) (l : list A) :
  length (for_loop n (fun i acc => <[i := f i]> acc) l) = length l.
Proof. apply fill_loop_spec. Qed.

Lemma fill_loop_lookup {A : Type} (n : nat) (f : nat -> A) (l : list A) (k : nat) :
  for_loop n (fun i acc => <[i := f i]> acc) l !! k =
  if decide (k < n /\ k < length l) then Some (f k) else l !! k.
Proof. apply fill_loop_spec. Qed.

(** Filling a whole array gives the list of the values. *)
Lemma fill_loop_all {A : Type} (n : nat) (f : nat -> A) (l : list A) :
  length l = n ->
  for_loop n (fun i acc => <[i := f i]> acc) l = map f (seq 0 n).
Proof.
  intros Hlen. apply list_eq. intros k. rewrite fill_loop_lookup.
  rewrite list_lookup_fmap. case_decide as Hk.
  - rewrite lookup_seq_lt by lia. done.
  - rewrite lookup_seq_ge by lia. rewrite lookup_ge_None_2 by lia. done.
Qed.

Lemma for_loop_ext {S : Type} (n : nat) (f g : nat -> S -> S) (s : S) :
  (forall i acc, i < n -> f i acc = g i acc) ->
  for_loop n f s = for_loop n g s.
Proof.
  intros Hfg. induction n as [|n IH]; [done|].
  rewrite !for_loop_S, IH by (intros; apply Hfg; lia). apply Hfg. lia.
Qed.

(** ** Streaming Frame Processor: the overlap buffer *)

Section ProcessorFacts.
Variable lm : Libm.

Lemma copy_overlap_length (prev wb : list float) :
  length (copy_overlap prev wb) = length wb.
Proof. apply (fill_loop_length _ (fun i => prev !!! i)). Qed.

Lemma copy_overlap_lookup (prev wb : list float) (k : nat) :
  copy_overlap prev wb !! k =
  if decide (k < length prev /\ k < length wb) then Some (prev !!! k) else wb !! k.
Proof. apply (fill_loop_lookup _ (fun i => prev !!! i)). Qed.

Lemma copy_new_samples_spec (hop wl : Z) (ol : nat) (new wb : list float) :
  length (copy_new_samples hop wl ol new wb) = length wb /\
  forall k, copy_new_samples hop wl ol new wb !! k =
    if decide (ol <= k /\ k < ol + Z.to_nat hop /\ (Z.of_nat k < wl)%Z /\ k < length wb)
    then Some (new !!! (k - ol)) else wb !! k.
Proof.
  unfold copy_new_samples.
  set (P := fun (m : nat) (acc : list float) =>
    length acc = length wb /\
    forall k, acc !! k =
      if decide (ol <= k /\ k < ol + m /\ (Z.of_nat k < wl)%Z /\ k < length wb)
      then Some (new !!! (k - ol)) else wb !! k).
  apply (for_loop_ind P); unfold P.
  - split; [done|]. intros k. case_decide; [lia|done].
  - intros i acc Hi [Hlen Hacc].
    destruct (Z.ltb_spec (Z.of_nat (ol + i)) wl) as [Hlt|Hge].
    + split; [by rewrite length_insert|]. intros k.
      destruct (decide (ol + i = k)) as [<-|Hne].
      * destruct (decide (ol + i < length wb)).
        -- rewrite list_lookup_insert_eq by lia.
           case_decide; [|lia]. do 2 f_equal. lia.
        -- rewrite list_insert_ge by lia. rewrite Hacc.
           repeat case_decide; try lia; done.
      * rewrite list_lookup_insert_ne by done. rewrite Hacc.
        repeat case_decide; try lia; done.
    + split; [done|]. intros k. rewrite Hacc.
      repeat case_decide; try lia; done.
Qed.

Lemma update_previous_eq (hop wl : Z) (wb prev : list float) :
  update_previous hop wl wb prev =
  map (fun i => if (hop + Z.of_nat i <? wl)%Z
                then wb !!! Z.to_nat (hop + Z.of_nat i) else F32.zero)
      (seq 0 (length prev)).
Proof.
  unfold update_previous. rewrite <- (fill_loop_all _ _ prev) by done.
  apply for_loop_ext. intros i acc _. by destruct (_ <? _)%Z.
Qed.

(** C1. A call of [process_frame] whose input length differs from
    [hop_length] returns the empty array and the processor it was given:
    no member changes, the overlap buffer [previous_samples] included. *)
Theorem process_frame_size_mismatch (p : AudioProcessor) (p_samples : list float) :
  Z.of_nat (length p_samples) <> hop_length p ->
  process_frame lm p p_samples = ([], p) /\
  previous_samples (snd (process_frame lm p p_samples)) = previous_samples p.
Proof.
  intros Hne. unfold process_frame.
  destruct (Z.eqb_spec (Z.of_nat (length p_samples)) (hop_length p)) as [Heq|_];
    [contradiction|]. done.
Qed.

(** C2. On an input of exactly [hop_length] samples, with
    [overlap_len] the length of the overlap buffer: the window buffer
    holds the overlap buffer at [0 .. overlap_len - 1] and the new samples
    behind it, those that would land at [window_length] or beyond being
    dropped; and the overlap buffer kept for the next call has the same
    length and holds, at [i], the window buffer's element
    [hop_length + i], or zero when that index is past the window
    buffer. *)
Theorem process_frame_window_and_overlap (p : AudioProcessor) (p_samples : list float) :
  Z.of_nat (length p_samples) = hop_length p ->
  length (window_buffer p) = Z.to_nat (window_length p) ->
  length (previous_samples p) <= length (window_buffer p) ->
  let overlap_len := length (previous_samples p) in
  let p' := snd (process_frame lm p p_samples) in
  length (window_buffer p') = Z.to_nat (window_length p) /\
  (forall i, i < overlap_len -> window_buffer p' !! i = previous_samples p !! i) /\
  (forall i, i < length p_samples ->
     overlap_len + i < Z.to_nat (window_length p) ->
     window_buffer p' !! (overlap_len + i) = p_samples !! i) /\
  length (previous_samples p') = overlap_len /\
  (forall i, i < overlap_len ->
     previous_samples p' !! i =
     Some (if (hop_length p + Z.of_nat i <? window_length p)%Z
           then window_buffer p' !!! Z.to_nat (hop_length p + Z.of_nat i)
           else F32.zero)).
Proof.
  intros Hhop Hwb Hprev overlap_len p'.
  subst p'. unfold process_frame.
  rewrite Hhop, Z.eqb_refl. cbn [negb snd].
  cbn [window_buffer previous_samples set_previous_samples set_windows set_fft_state].
  fold overlap_len.
  destruct (copy_new_samples_spec (hop_length p) (window_length p) overlap_len
              p_samples (copy_overlap (previous_samples p) (window_buffer p)))
    as [Hlen Hlook].
  rewrite copy_overlap_length in Hlen, Hlook.
  split; [lia|]. split; [|split; [|split]].
  - intros i Hi. rewrite Hlook. case_decide; [lia|].
    rewrite copy_overlap_lookup. case_decide; [|lia].
    symmetry. apply list_lookup_lookup_total_lt. lia.
  - intros i Hi Hin. rewrite Hlook. case_decide; [|lia].
    replace (overlap_len + i - overlap_len) with i by lia.
    symmetry. apply list_lookup_lookup_total_lt. lia.
  - rewrite update_previous_eq, length_map, length_seq. done.
  - intros i Hi. rewrite update_previous_eq, list_lookup_fmap.
    rewrite lookup_seq_lt by done. done.
Qed.
End ProcessorFacts.

(** ** FFT Engine *)

(** *** Bit reversal *)

Lemma bitrev_lt (L i : nat) : bitrev L i < 2 ^ L.
Proof.
  revert i. induction L as [|L IH]; intros i; cbn [bitrev].
  - cbn. lia.
  - specialize (IH (i / 2)). rewrite Nat.pow_succ_r'.
    pose proof (Nat.mod_upper_bound i 2). nia.
Qed.

Lemma bitrev_high (L i a : nat) : bitrev L (i + a * 2 ^ L) = bitrev L i.
Proof.
  revert i a. induction L as [|L IH]; intros i a; cbn [bitrev]; [done|].
  rewrite Nat.pow_succ_r'.
  replace (i + a * (2 * 2 ^ L)) with (i + (a * 2 ^ L) * 2) by lia.
  rewrite Nat.Div0.mod_add, Nat.div_add by lia. by rewrite IH.
Qed.

(** The same reversal, least significant result bit last. *)
Lemma bitrev_snoc (L i : nat) :
  bitrev (S L) i = 2 * bitrev L i + (i / 2 ^ L) mod 2.
Proof.
  revert i. induction L as [|L IH]; intros i.
  - cbn [bitrev]. change (2 ^ 0) with 1. rewrite Nat.div_1_r. lia.
  - change (bitrev (S (S L)) i) with ((i mod 2) * 2 ^ S L + bitrev (S L) (i / 2)).
    rewrite IH. cbn [bitrev]. rewrite Nat.Div0.div_div.
    rewrite (Nat.pow_succ_r' 2 L). lia.
Qed.

Lemma bitrev_involutive (L i : nat) : i < 2 ^ L -> bitrev L (bitrev L i) = i.
Proof.
  revert i. induction L as [|L IH]; intros i Hi.
  - cbn in *. lia.
  - rewrite Nat.pow_succ_r' in Hi.
    assert (Hq : i / 2 < 2 ^ L) by (apply Nat.Div0.div_lt_upper_bound; lia).
    pose proof (Nat.mod_upper_bound i 2 ltac:(lia)) as Hr.
    pose proof (bitrev_lt L (i / 2)) as Hw.
    rewrite bitrev_snoc. cbn [bitrev].
    rewrite (Nat.add_comm (i mod 2 * 2 ^ L)), bitrev_high, IH by done.
    rewrite Nat.div_add by lia. rewrite (Nat.div_small (bitrev L (i / 2))) by done.
    cbn [Nat.add]. rewrite Nat.mod_small by lia.
    pose proof (Nat.div_mod_eq i 2). lia.
Qed.



(** The loop of [init_fft] computes it. *)
Lemma bit_reverse_step (rev curr : nat) :
  Nat.lor (Nat.shiftl rev 1) (Nat.land curr 1) = 2 * rev + curr mod 2 /\
  Nat.shiftr curr 1 = curr / 2.
Proof.
  split; [|apply (Nat.shiftr_div_pow2 curr 1)].
  assert (Hland : forall a, Nat.land a 1 = a mod 2)
    by (intros a; exact (Nat.land_ones a 1)).
  rewrite Nat.shiftl_mul_pow2, Hland. change (2 ^ 1) with 2.
  assert (Hdisj : Nat.land (rev * 2) (curr mod 2) = 0).
  { pose proof (Nat.mod_upper_bound curr 2 ltac:(lia)) as Hb.
    destruct (curr mod 2) as [|[|?]]; [apply Nat.land_0_r| |lia].
    rewrite Hland. apply Nat.Div0.mod_mul. }
  rewrite <- Nat.lxor_lor, <- Nat.add_nocarry_lxor by done. lia.
Qed.

Lemma for_loop_const_S {S : Type} (n : nat) (g : S -> S) (s : S) :
  for_loop (Datatypes.S n) (fun _ => g) s = for_loop n (fun _ => g) (g s).
Proof.
  induction n as [|n IH]; [done|].
  rewrite (for_loop_S (Datatypes.S n)), IH, (for_loop_S n (fun _ => g) (g s)). done.
Qed.

Lemma bit_reverse_loop (L rev curr : nat) :
  fst (for_loop L
         (fun _ '(rev, curr) =>
            (Nat.lor (Nat.shiftl rev 1) (Nat.land curr 1), Nat.shiftr curr 1))
         (rev, curr)) = rev * 2 ^ L + bitrev L curr.
Proof.
  revert rev curr. induction L as [|L IH]; intros rev curr.
  - cbn. lia.
  - rewrite for_loop_const_S.
    destruct (bit_reverse_step rev curr) as [-> ->].
    rewrite IH. cbn [bitrev]. rewrite Nat.pow_succ_r'. lia.
Qed.

Lemma bit_reverse_bitrev (L i : nat) : bit_reverse L i = bitrev L i.
Proof. unfold bit_reverse. rewrite bit_reverse_loop. lia. Qed.

Lemma fft_levels_loop_pow2 (L fuel levels : nat) :
  L <= fuel -> fft_levels_loop fuel (2 ^ L) levels = levels + L.
Proof.
  revert fuel levels. induction L as [|L IH]; intros fuel levels Hfuel.
  - destruct fuel; cbn; lia.
  - destruct fuel as [|fuel]; [lia|]. cbn [fft_levels_loop].
    assert (1 < 2 ^ S L) by (apply Nat.pow_gt_1; lia).
    destruct (Nat.ltb_spec 1 (2 ^ S L)); [|lia].
    rewrite Nat.shiftr_div_pow2. change (2 ^ 1) with 2.
    rewrite Nat.pow_succ_r', (Nat.mul_comm 2), Nat.div_mul by lia.
    rewrite IH by lia. lia.
Qed.

Lemma fft_levels_pow2 (L : nat) : fft_levels (2 ^ L) = L.
Proof.
  unfold fft_levels. rewrite fft_levels_loop_pow2; [done|].
  apply Nat.lt_le_incl, Nat.pow_gt_lin_r. lia.
Qed.

Lemma init_bit_reverse_table_pow2 (L : nat) (old : list nat) :
  init_bit_reverse_table (2 ^ L) old = map (bitrev L) (seq 0 (2 ^ L)).
Proof.
  unfold init_bit_reverse_table. rewrite fft_levels_pow2.
  rewrite fill_loop_all by apply length_resize.
  apply map_ext. intros i. apply bit_reverse_bitrev.
Qed.

(** *** The loops of [perform_fft] on arrays *)

Section FFTArrays.
Context {K : Type} `{SK : Scalar K}.
Implicit Types data acc : list K.

Lemma swap_length data i j : length (swap data i j) = length data.
Proof. unfold swap. by rewrite !length_insert. Qed.



End FFTArrays.

Section FFTAlgebra.
Context {K : Type} `{SK : Scalar K} (cone : K) (copp : K -> K).
Hypothesis Kring : ring_theory czero cone cadd cmul csub copp (@eq K).
Add Ring Kring_ring : Kring.

Variable W : nat -> K.
Hypothesis W_0 : W 0 = cone.
Hypothesis W_add : forall a b, W (a + b) = cmul (W a) (W b).







Section Half.
(** [h] is half the size of the transform. *)
Variable h : nat.
Hypothesis W_half : W h = copp cone.


End Half.
End FFTAlgebra.

Section FFTLoops.
Context {K : Type} `{SK : Scalar K}.
Implicit Types data : list K.


End FFTLoops.


Section FFTCorrect.
Context {K : Type} `{SK : Scalar K} (cone : K) (copp : K -> K).
Hypothesis Kring : ring_theory czero cone cadd cmul csub copp (@eq K).
Add Ring Kring_ring' : Kring.

Variable W : nat -> K.
Hypothesis W_0 : W 0 = cone.
Hypothesis W_add : forall a b, W (a + b) = cmul (W a) (W b).

Variable L : nat.
Hypothesis W_half : forall L', L = S L' -> W (2 ^ L') = copp cone.
Hypothesis W_twiddle : forall i, i < 2 ^ L / 2 -> twiddle i (2 ^ L) = W i.




End FFTCorrect.





(** *** The schedule as a recursion

    The loops of [perform_fft] evaluate the decimation-in-time recursion,
    whatever the arithmetic of the scalars: no law of the operations is
    used, so the statement holds for the rounded operations of the
    processor. *)

Section CooleyTukeyFacts.
Context {K : Type}.
Variables (add sub mul : K -> K -> K) (w : nat -> K).



End CooleyTukeyFacts.

Section FFTRecursion.
Context {K : Type} `{SK : Scalar K}.
Variable L : nat.




End FFTRecursion.

Section FFTLength.
Context {K : Type} `{SK : Scalar K}.

Lemma fft_groups_length (tw : list K) (fuel n len i : nat) (data : list K) :
  length (fft_groups tw fuel n len i data) = length data.
Proof.
  revert i data. induction fuel as [|fuel IH]; intros i data; cbn [fft_groups]; [done|].
  destruct (i <? n); [|done]. rewrite IH.
  apply (for_loop_ind (fun _ acc => length acc = length data)); [done|].
  intros j acc _ Hacc. unfold butterfly. by rewrite !length_insert.
Qed.

Lemma fft_stages_length (tw : list K) (fuel n len : nat) (data : list K) :
  length (fft_stages tw fuel n len data) = length data.
Proof.
  revert len data. induction fuel as [|fuel IH]; intros len data; cbn [fft_stages]; [done|].
  destruct (len <=? n); [|done]. by rewrite IH, fft_groups_length.
Qed.

Lemma perform_fft_length (brt : list nat) (tw data : list K) :
  length (perform_fft brt tw data) = length data.
Proof.
  unfold perform_fft. rewrite fft_stages_length. unfold bit_reverse_permute.
  apply (for_loop_ind (fun _ acc => length acc = length data)); [done|].
  intros i acc _ Hacc. destruct (i <? _); [|done]. by rewrite swap_length.
Qed.
End FFTLength.

(** *** The transform in binary32 and in exact arithmetic *)






(** *** The bit-reverse table for every size *)

(** The loop that counts the levels stops at the largest power of two
    that is not above [n_fft]. *)
Lemma fft_levels_loop_bound (fuel temp levels : nat) :
  1 <= temp ->
  2 ^ fft_levels_loop fuel temp levels <= 2 ^ levels * temp.
Proof.
  revert temp levels. induction fuel as [|fuel IH]; intros temp levels Htemp;
    cbn [fft_levels_loop].
  - nia.
  - destruct (Nat.ltb_spec 1 temp) as [Hgt|Hle]; [|nia].
    rewrite Nat.shiftr_div_pow2. change (2 ^ 1) with 2.
    assert (Hhalf : 1 <= temp / 2) by (apply Nat.div_le_lower_bound; lia).
    specialize (IH (temp / 2) (S levels) Hhalf).
    rewrite Nat.pow_succ_r' in IH.
    pose proof (Nat.Div0.mul_div_le temp 2). nia.
Qed.

Lemma fft_levels_bound (n_fft : nat) : 1 <= n_fft -> 2 ^ fft_levels n_fft <= n_fft.
Proof.
  intros Hn. pose proof (fft_levels_loop_bound n_fft n_fft 0 Hn) as H.
  cbn [Nat.pow] in H. unfold fft_levels. lia.
Qed.

(** X15. For every [n_fft], a power of two or not, the table
    [init_fft] builds has [n_fft] entries and each of them is an index
    below [n_fft]: the swaps of [perform_fft] stay inside a sequence of
    [n_fft] samples.  When [n_fft] is a power of two the table is its own
    inverse, so the swaps are a permutation of the samples. *)
Theorem bit_reverse_table_in_range (n_fft L : nat) (old : list nat) :
  length (init_bit_reverse_table n_fft old) = n_fft /\
  Forall (fun rev => rev < n_fft) (init_bit_reverse_table n_fft old) /\
  Forall (fun i => init_bit_reverse_table (2 ^ L) old
                     !!! (init_bit_reverse_table (2 ^ L) old !!! i) = i)
         (seq 0 (2 ^ L)).
Proof.
  assert (Htbl : init_bit_reverse_table n_fft old =
                 map (bit_reverse (fft_levels n_fft)) (seq 0 n_fft)).
  { unfold init_bit_reverse_table. apply fill_loop_all, length_resize. }
  split; [|split].
  - by rewrite Htbl, length_map, length_seq.
  - rewrite Htbl. apply Forall_forall. intros rev Hin.
    apply list_elem_of_fmap in Hin as (i & -> & Hi). apply elem_of_seq in Hi.
    rewrite bit_reverse_bitrev.
    pose proof (bitrev_lt (fft_levels n_fft) i).
    pose proof (fft_levels_bound n_fft ltac:(lia)). lia.
  - rewrite init_bit_reverse_table_pow2. apply Forall_forall. intros i Hi.
    apply elem_of_seq in Hi.
    assert (Hlook : forall j, j < 2 ^ L ->
              map (bitrev L) (seq 0 (2 ^ L)) !!! j = bitrev L j).
    { intros j Hj.
      rewrite list_lookup_total_alt, list_lookup_fmap, lookup_seq_lt by done. done. }
    rewrite (Hlook i) by lia. rewrite Hlook by apply bitrev_lt.
    apply bitrev_involutive. lia.
Qed.

(** ** Mel Filter Bank *)

(** A loop that stores [f j] at index [base + j]. *)
Lemma fill_offset_loop_spec {A : Type} (n base : nat) (f : nat -> A) (l : list A) :
  length (for_loop n (fun j acc => <[base + j := f j]> acc) l) = length l /\
  forall k, for_loop n (fun j acc => <[base + j := f j]> acc) l !! k =
            if decide (base <= k < base + n /\ k < length l)
            then Some (f (k - base)) else l !! k.
Proof.
  set (P := fun (m : nat) (acc : list A) =>
    length acc = length l /\
    forall k, acc !! k = if decide (base <= k < base + m /\ k < length l)
                         then Some (f (k - base)) else l !! k).
  apply (for_loop_ind P); unfold P.
  - split; [done|]. intros k. case_decide; [lia|done].
  - intros i acc Hi [Hlen Hacc]. split; [by rewrite length_insert|].
    intros k. destruct (decide (base + i = k)) as [<-|Hne].
    + destruct (decide (base + i < length l)).
      * rewrite list_lookup_insert_eq by lia. case_decide; [|lia].
        do 2 f_equal. lia.
      * rewrite list_insert_ge by lia. rewrite Hacc.
        repeat case_decide; try lia; done.
    + rewrite list_lookup_insert_ne by done. rewrite Hacc.
      repeat case_decide; try lia; done.
Qed.

Section MelFacts.
Variable lm : Libm.

Lemma mel_points_loop_bin (sample_rate n_fft n_mels : Z) (f_min f_max : float) (k : nat) :
  k < Z.to_nat (n_mels + 2) ->
  snd (mel_points_loop lm sample_rate n_fft n_mels f_min f_max) !! k =
  Some (ref_bin_point lm sample_rate n_fft n_mels f_min f_max k).
Proof.
  intros Hk. unfold mel_points_loop.
  set (npts := Z.to_nat (n_mels + 2)) in *.
  set (P := fun (m : nat) (st : list float * list float * list float) =>
    length st.1.1 = npts /\ length st.1.2 = npts /\ length st.2 = npts /\
    forall k, k < m ->
      st.2 !! k = Some (ref_bin_point lm sample_rate n_fft n_mels f_min f_max k)).
  match goal with |- snd (for_loop _ ?body ?init) !! _ = _ =>
    assert (HP : P npts (for_loop npts body init)) end.
  { apply (for_loop_ind P); unfold P.
    - cbn [fst snd]. rewrite !length_replicate. repeat split; try done. lia.
    - intros i [[mp hp] bp] Hi (Hmp & Hhp & Hbp & Hacc). cbn [fst snd] in *.
      rewrite !length_insert. repeat split; try done.
      intros k' Hk'. destruct (decide (k' = i)) as [->|Hne].
      + rewrite list_lookup_insert_eq by lia. f_equal.
        rewrite !list_lookup_total_insert_eq by lia. done.
      + rewrite list_lookup_insert_ne by done. apply Hacc. lia. }
  destruct HP as (_ & _ & _ & Hall). by apply Hall.
Qed.

Lemma build_mel_filter_bank_lookup (sample_rate n_fft n_mels : Z) (f_min f_max : float)
    (i j : nat) :
  (0 <= n_fft)%Z ->
  i < Z.to_nat n_mels -> j < Z.to_nat (n_fft / 2 + 1) ->
  let bank := build_mel_filter_bank lm sample_rate n_fft n_mels f_min f_max in
  length bank = Z.to_nat n_mels * Z.to_nat (n_fft / 2 + 1) /\
  bank !! (i * Z.to_nat (n_fft / 2 + 1) + j) =
  Some (ref_mel_filter_bank lm sample_rate n_fft n_mels f_min f_max i j).
Proof.
  intros Hfft Hi Hj bank. subst bank. unfold build_mel_filter_bank.
  assert (Hmels : (0 <= n_mels)%Z) by lia.
  rewrite Z.quot_div_nonneg by lia.
  set (ns := Z.to_nat (n_fft / 2 + 1)) in *.
  set (bins := snd (mel_points_loop lm sample_rate n_fft n_mels f_min f_max)).
  set (row := fun (i : nat) (j : nat) =>
    mel_weight (bins !!! i) (bins !!! (i + 1)) (bins !!! (i + 2)) j).
  set (P := fun (m : nat) (acc : list float) =>
    length acc = Z.to_nat n_mels * ns /\
    forall i' j', i' < m -> j' < ns -> acc !! (i' * ns + j') = Some (row i' j')).
  match goal with |- length (for_loop _ ?body ?init) = _ /\ _ =>
    assert (HP : P (Z.to_nat n_mels) (for_loop (Z.to_nat n_mels) body init)) end.
  { apply (for_loop_ind P); unfold P.
    - split; [|lia]. rewrite length_replicate. unfold ns.
      rewrite <- Z2Nat.inj_mul by (try apply Z.add_nonneg_nonneg;
        try apply Z.div_pos; lia). done.
    - intros i0 acc Hi0 [Hlen Hacc].
      destruct (fill_offset_loop_spec ns (i0 * ns) (row i0) acc) as [Hlen' Hlook].
      split; [unfold row in Hlen'; lia|].
      intros i' j' Hi' Hj'. unfold row in Hlook at 1. rewrite Hlook.
      case_decide as Hc.
      + assert (i' = i0) by nia. subst i'. do 2 f_equal. lia.
      + apply Hacc; [|done]. destruct (decide (i' = i0)) as [->|]; [|lia].
        exfalso. apply Hc. nia. }
  destruct HP as [Hlen Hall]. split; [done|].
  rewrite Hall by done. f_equal. unfold row, ref_mel_filter_bank.
  assert (Hbin : forall k, k < Z.to_nat (n_mels + 2) ->
            bins !!! k = ref_bin_point lm sample_rate n_fft n_mels f_min f_max k).
  { intros k Hk. apply list_lookup_total_correct. by apply mel_points_loop_bin. }
  rewrite !Hbin by lia. done.
Qed.

(** A matrix given by its entries and stored row after row. *)
Lemma flat_rows_spec {A : Type} (f : nat -> nat -> A) (rows cols : nat) :
  length (flat_map (fun i => map (f i) (seq 0 cols)) (seq 0 rows)) = rows * cols /\
  forall i j, i < rows -> j < cols ->
    flat_map (fun i => map (f i) (seq 0 cols)) (seq 0 rows) !! (i * cols + j)
    = Some (f i j).
Proof.
  induction rows as [|rows [IHlen IHlook]]; [split; [done|lia]|].
  rewrite seq_S, flat_map_app. cbn [flat_map Nat.add]. rewrite app_nil_r.
  split.
  - rewrite length_app, IHlen, length_map, length_seq. lia.
  - intros i j Hi Hj. destruct (decide (i = rows)) as [->|Hne].
    + rewrite lookup_app_r by lia. rewrite IHlen.
      replace (rows * cols + j - rows * cols) with j by lia.
      rewrite list_lookup_fmap, lookup_seq_lt by done. done.
    + rewrite lookup_app_l by (rewrite IHlen; nia). apply IHlook; lia.
Qed.

(** C8. The matrix built by [init_mel_filter_bank] is the reference
    filter bank: [n_mels] rows of [n_fft / 2 + 1] entries stored row after
    row, the entry of filter [i] at bin [j] being the triangle weight
    between the bin positions [i], [i + 1], [i + 2] of the [n_mels + 2]
    evenly spaced mel points, each position being
    [(n_fft + 1) * hz / sample_rate]; the bin [j == center] takes the
    rising branch. *)
Theorem mel_filter_bank_reference (sample_rate n_fft n_mels : Z) (f_min f_max : float) :
  (0 <= n_fft)%Z ->
  build_mel_filter_bank lm sample_rate n_fft n_mels f_min f_max =
  ref_mel_matrix lm sample_rate n_fft n_mels f_min f_max.
Proof.
  intros Hfft. unfold ref_mel_matrix.
  set (ns := Z.to_nat (n_fft / 2 + 1)).
  set (ref := ref_mel_filter_bank lm sample_rate n_fft n_mels f_min f_max).
  destruct (flat_rows_spec ref (Z.to_nat n_mels) ns) as [Hrlen Hrlook].
  assert (Hns : 0 < ns) by (unfold ns; pose proof (Z.div_pos n_fft 2); lia).
  destruct (decide (Z.to_nat n_mels = 0)) as [Hz|Hnz].
  { rewrite Hz. unfold build_mel_filter_bank. rewrite Hz.
    rewrite Z.quot_div_nonneg by lia.
    pose proof (Z.div_pos n_fft 2 Hfft ltac:(lia)).
    replace (Z.to_nat (n_mels * (n_fft / 2 + 1))) with 0 by nia. done. }
  destruct (build_mel_filter_bank_lookup sample_rate n_fft n_mels f_min f_max 0 0
              Hfft ltac:(lia) Hns) as [Hlen _]. fold ns in Hlen.
  apply (list_eq_same_length _ _ (Z.to_nat n_mels * ns)); [done|done|].
  intros k x y Hk Hx Hy.
  pose proof (Nat.div_mod_eq k ns) as Hdm.
  pose proof (Nat.mod_upper_bound k ns ltac:(lia)) as Hj.
  assert (Hi : k / ns < Z.to_nat n_mels) by (apply Nat.Div0.div_lt_upper_bound; lia).
  destruct (build_mel_filter_bank_lookup sample_rate n_fft n_mels f_min f_max
              (k / ns) (k mod ns) Hfft Hi Hj) as [_ Hlook]. fold ns in Hlook.
  specialize (Hrlook (k / ns) (k mod ns) Hi Hj).
  replace (k / ns * ns + k mod ns) with k in Hlook, Hrlook by lia.
  fold ref in Hlook. congruence.
Qed.

Lemma hz_to_mel_zero : hz_to_mel lm F32.zero = F32.zero.
Proof.
  unfold hz_to_mel.
  change (F32.add F32.one (F32.div F32.zero (F32.of_int 700))) with F32.one.
  rewrite lm_log10f_one. reflexivity.
Qed.

Lemma mel_to_hz_zero : mel_to_hz lm F32.zero = F32.zero.
Proof.
  unfold mel_to_hz.
  change (F32.div F32.zero (F32.of_int 2595)) with F32.zero.
  rewrite lm_powf_zero. reflexivity.
Qed.

(** With [f_min = f_max = 0] every bin position is zero, whatever the
    math library computes elsewhere, and the first weight of the first
    filter is [0 / 0]. *)
Lemma degenerate_bank_nan :
  build_mel_filter_bank lm 16000 2 1 F32.zero F32.zero !! 0 = Some S754_nan.
Proof.
  destruct (build_mel_filter_bank_lookup 16000 2 1 F32.zero F32.zero 0 0)
    as [_ Hlook]; [lia|lazy; lia|lazy; lia|].
  etrans; [exact Hlook|]. f_equal.
  assert (Hbin : forall i, i < 3 ->
            ref_bin_point lm 16000 2 1 F32.zero F32.zero i = F32.zero).
  { intros i Hi. unfold ref_bin_point, ref_mel_point. rewrite hz_to_mel_zero.
    destruct i as [|[|[|i]]]; [| | |lia].
    all: match goal with |- context [mel_to_hz lm ?x] =>
           change x with F32.zero end;
         rewrite mel_to_hz_zero; reflexivity. }
  unfold ref_mel_filter_bank. rewrite !Hbin by lia. reflexivity.
Qed.
End MelFacts.

(** *** Comparison and subtraction of equal floats *)

Lemma SFcompare_antisym (x y : spec_float) :
  SFcompare x y = option_map CompOpp (SFcompare y x).
Proof.
  destruct x as [sx|sx| |sx mx ex], y as [sy|sy| |sy my ey]; cbn;
    try destruct sx; try destruct sy; try reflexivity.
  all: rewrite (Z.compare_antisym ey ex);
    assert (Hm : Pos.compare_cont Eq mx my = CompOpp (Pos.compare_cont Eq my mx))
      by (symmetry; apply (Pos.compare_cont_antisym my mx Eq));
    rewrite Hm; destruct (ey ?= ex)%Z; cbn; try reflexivity;
    destruct (Pos.compare_cont Eq my mx); reflexivity.
Qed.

(** Two floats that compare equal are the same float or two zeros. *)
Lemma SFeqb_true (x y : spec_float) :
  SFeqb x y = true -> x = y \/ exists sx sy, x = S754_zero sx /\ y = S754_zero sy.
Proof.
  unfold SFeqb.
  destruct x as [sx|sx| |sx mx ex], y as [sy|sy| |sy my ey]; cbn;
    try destruct sx; try destruct sy; try discriminate; eauto.
  all: destruct (Z.compare_spec ex ey) as [->| |]; try discriminate;
    intros Hm; left; f_equal;
    apply Pos.compare_eq; change (mx ?= my)%positive with (Pos.compare_cont Eq mx my);
    destruct (Pos.compare_cont Eq mx my); done.
Qed.

(** Comparisons do not see the sign of a zero. *)
Lemma SFcompare_eqb_l (x y z : spec_float) :
  SFeqb x y = true -> SFcompare x z = SFcompare y z.
Proof.
  intros [->|(sx & sy & -> & ->)]%SFeqb_true; [done|]. by destruct z.
Qed.

Lemma SFcompare_eqb_r (x y z : spec_float) :
  SFeqb x y = true -> SFcompare z x = SFcompare z y.
Proof.
  intros Heq. rewrite (SFcompare_antisym z x), (SFcompare_antisym z y).
  by rewrite (SFcompare_eqb_l x y z).
Qed.

(** The difference of two floats that compare equal is a zero, or a NaN
    for two infinities. *)
Lemma SFsub_eqb (prec emax : Z) (x y : spec_float) :
  SFeqb x y = true -> zero_or_nan (SFsub prec emax x y).
Proof.
  intros [->|(sx & sy & -> & ->)]%SFeqb_true.
  - destruct y as [s|s| |s m e]; cbn; try destruct s; try done.
    all: rewrite Z.sub_diag; done.
  - destruct sx, sy; done.
Qed.

Lemma SFdiv_zero_or_nan (prec emax : Z) (x y : spec_float) :
  zero_or_nan x -> zero_or_nan y -> SFdiv prec emax x y = S754_nan.
Proof. destruct x, y; cbn; done. Qed.

(** The two degenerate sides of one triangle.  With [center == right] no
    bin takes the falling branch, so a bin outside the rising side gets
    weight zero.  With [left == center] every bin that takes the rising
    branch gets [0 / 0]. *)
Lemma mel_weight_zero_width (left center right : float) (j : nat) :
  let jf := F32.of_int (Z.of_nat j) in
  (F32.eqb center right = true ->
   F32.ltb center jf && F32.leb jf right = false /\
   (F32.leb left jf && F32.leb jf center = false ->
    mel_weight left center right j = F32.zero)) /\
  (F32.eqb left center = true ->
   F32.leb left jf && F32.leb jf center = true ->
   mel_weight left center right j = S754_nan).
Proof.
  intros jf. split.
  - intros Heq.
    assert (Hfall : F32.ltb center jf && F32.leb jf right = false).
    { unfold F32.ltb, F32.leb, SFltb, SFleb.
      rewrite <- (SFcompare_eqb_r center right jf Heq).
      rewrite (SFcompare_antisym jf center).
      destruct (SFcompare center jf) as [[]|]; done. }
    split; [done|]. intros Hrise. unfold mel_weight. fold jf.
    by rewrite Hrise, Hfall.
  - intros Heq Hrise. unfold mel_weight. fold jf. rewrite Hrise.
    apply SFdiv_zero_or_nan; apply SFsub_eqb.
    + apply andb_prop in Hrise as [Hl Hr].
      unfold F32.leb, SFleb in Hl, Hr. unfold SFeqb.
      rewrite <- (SFcompare_eqb_r left center jf Heq) in Hr.
      rewrite (SFcompare_antisym jf left) in *.
      destruct (SFcompare left jf) as [[]|]; done.
    + unfold F32.eqb, SFeqb in *. rewrite (SFcompare_antisym center left).
      destruct (SFcompare left center) as [[]|]; done.
Qed.

(** C7, as the code has it.  In the matrix built for a configuration,
    take filter [i] with bin positions [left], [center], [right] and a bin
    [j] of its row.  When the falling side has zero width
    ([center == right]) the falling branch is not taken: outside the rising
    side the entry is zero and nothing is divided.  When the rising side
    has zero width ([left == center]) there is no guard: at a bin that
    takes the rising branch, which is the bin [j == left], the entry is
    [0 / 0], a NaN. *)
Theorem mel_filter_bank_zero_width (lm : Libm) (sample_rate n_fft n_mels : Z)
    (f_min f_max : float) (i j : nat) :
  (0 <= n_fft)%Z ->
  i < Z.to_nat n_mels -> j < Z.to_nat (n_fft / 2 + 1) ->
  let bin := ref_bin_point lm sample_rate n_fft n_mels f_min f_max in
  let left := bin i in
  let center := bin (i + 1) in
  let right := bin (i + 2) in
  let jf := F32.of_int (Z.of_nat j) in
  let entry :=
    build_mel_filter_bank lm sample_rate n_fft n_mels f_min f_max
      !! (i * Z.to_nat (n_fft / 2 + 1) + j) in
  (F32.eqb center right = true ->
   F32.leb left jf && F32.leb jf center = false ->
   entry = Some F32.zero) /\
  (F32.eqb left center = true ->
   F32.leb left jf && F32.leb jf center = true ->
   entry = Some S754_nan).
Proof.
  intros Hfft Hi Hj bin left center right jf entry.
  destruct (build_mel_filter_bank_lookup lm sample_rate n_fft n_mels f_min f_max i j
              Hfft Hi Hj) as [_ Hlook].
  subst entry. rewrite Hlook. unfold ref_mel_filter_bank.
  fold bin. fold left center right.
  change (ref_triangle left center right j) with (mel_weight left center right j).
  destruct (mel_weight_zero_width left center right j) as [Hfall Hrise].
  split.
  - intros Heq Hout. f_equal. by apply Hfall.
  - intros Heq Hin. f_equal. by apply Hrise.
Qed.

Lemma mel_filter_bank_zero_width_witness :
  build_mel_filter_bank RefLibm.libm 16000 2 1 F32.zero F32.zero !! 0 = Some S754_nan.
Proof.
  refine (proj2 (mel_filter_bank_zero_width RefLibm.libm 16000 2 1 F32.zero F32.zero
                   0 0 _ _ _) _ _).
  - lia.
  - lazy. lia.
  - lazy. lia.
  - vm_compute. reflexivity.
  - vm_compute. reflexivity.
Defined.

Lemma mel_filter_bank_degenerate_nan :
  mel_filter_bank degenerate_processor !! 0 = Some S754_nan.
Proof. lazy. reflexivity. Qed.

Lemma mel_filter_bank_reference_witness :
  build_mel_filter_bank RefLibm.libm 16000 2 1 F32.zero F32.zero =
  ref_mel_matrix RefLibm.libm 16000 2 1 F32.zero F32.zero.
Proof. apply mel_filter_bank_reference. lia. Defined.

(** ** Configuration setters *)

Lemma reset_previous_samples (p : AudioProcessor) :
  previous_samples (reset p) =
  replicate (Z.to_nat (Z.max 0 (window_length p - hop_length p))) F32.zero.
Proof.
  unfold reset. cbn [previous_samples set_previous_samples].
  destruct (Z.ltb_spec (window_length p - hop_length p) 0); do 2 f_equal; lia.
Qed.

Section SetterFacts.
Variable lm : Libm.

Lemma init_window_window (p : AudioProcessor) :
  window (init_window lm p) =
  map (hann_coefficient lm (window_length p)) (seq 0 (Z.to_nat (window_length p))).
Proof.
  unfold init_window. cbn [window set_windows].
  apply fill_loop_all, length_resize.
Qed.

Lemma init_fft_tables (p : AudioProcessor) :
  let n := Z.to_nat (n_fft p) in
  bit_reverse_table (init_fft lm p) = map (bit_reverse (fft_levels n)) (seq 0 n) /\
  trig_tables (init_fft lm p) = map (fun i => complex_twiddle lm i n) (seq 0 (n / 2)) /\
  length (fft_input (init_fft lm p)) = n.
Proof.
  intros n. unfold init_fft. fold n.
  cbn [bit_reverse_table trig_tables fft_input set_fft_state].
  split; [|split].
  - apply fill_loop_all, length_resize.
  - unfold init_trig_tables.
    apply (fill_loop_all _ (fun i => complex_twiddle lm i n)), length_resize.
  - apply length_resize.
Qed.

(** C9, as the setters are written.  Every setter stores the new value
    and recomputes what is derived from it: the filter bank after
    [set_sample_rate], [set_fft_size], [set_mel_bands] and
    [set_frequency_range], the FFT tables after [set_fft_size], the
    window coefficients after [set_window_length].  The overlap buffer is
    reset, to [max 0 (window_length - hop_length)] zeros, by
    [set_hop_length] and [set_window_length] only; the other four setters
    leave it as it was. *)
Theorem setters_recompute_derived (p : AudioProcessor) (v : Z) (lo hi : float) :
  (sample_rate (set_sample_rate lm v p) = v /\
   mel_filter_bank (set_sample_rate lm v p) =
     build_mel_filter_bank lm v (n_fft p) (n_mels p) (f_min p) (f_max p) /\
   previous_samples (set_sample_rate lm v p) = previous_samples p) /\
  (n_fft (set_fft_size lm v p) = v /\
   bit_reverse_table (set_fft_size lm v p) =
     map (bit_reverse (fft_levels (Z.to_nat v))) (seq 0 (Z.to_nat v)) /\
   trig_tables (set_fft_size lm v p) =
     map (fun i => complex_twiddle lm i (Z.to_nat v)) (seq 0 (Z.to_nat v / 2)) /\
   length (fft_input (set_fft_size lm v p)) = Z.to_nat v /\
   mel_filter_bank (set_fft_size lm v p) =
     build_mel_filter_bank lm (sample_rate p) v (n_mels p) (f_min p) (f_max p) /\
   previous_samples (set_fft_size lm v p) = previous_samples p) /\
  (hop_length (set_hop_length v p) = v /\
   previous_samples (set_hop_length v p) =
     replicate (Z.to_nat (Z.max 0 (window_length p - v))) F32.zero) /\
  (window_length (set_window_length lm v p) = v /\
   window (set_window_length lm v p) =
     map (hann_coefficient lm v) (seq 0 (Z.to_nat v)) /\
   length (window_buffer (set_window_length lm v p)) = Z.to_nat v /\
   previous_samples (set_window_length lm v p) =
     replicate (Z.to_nat (Z.max 0 (v - hop_length p))) F32.zero) /\
  (n_mels (set_mel_bands lm v p) = v /\
   mel_filter_bank (set_mel_bands lm v p) =
     build_mel_filter_bank lm (sample_rate p) (n_fft p) v (f_min p) (f_max p) /\
   previous_samples (set_mel_bands lm v p) = previous_samples p) /\
  (f_min (set_frequency_range lm lo hi p) = lo /\
   f_max (set_frequency_range lm lo hi p) = hi /\
   mel_filter_bank (set_frequency_range lm lo hi p) =
     build_mel_filter_bank lm (sample_rate p) (n_fft p) (n_mels p) lo hi /\
   previous_samples (set_frequency_range lm lo hi p) = previous_samples p).
Proof.
  repeat split; try reflexivity.
  - apply (init_fft_tables (set_n_fft_field v p)).
  - apply (init_fft_tables (set_n_fft_field v p)).
  - apply (init_fft_tables (set_n_fft_field v p)).
  - apply (reset_previous_samples (set_hop_length_field v p)).
  - apply (init_window_window (set_window_length_field v p)).
  - unfold set_window_length, reset, init_window.
    cbn [window_buffer set_previous_samples set_windows window_length
         set_window_length_field].
    apply length_resize.
  - apply (reset_previous_samples (init_window lm (set_window_length_field v p))).
Qed.

(** The buffer sizes are an invariant of the processor. *)
Lemma buffers_sized_new : buffers_sized (AudioProcessor_new lm).
Proof.
  unfold buffers_sized, AudioProcessor_new. rewrite reset_previous_samples.
  unfold reset, init_mel_filter_bank, init_fft, init_window. cbn.
  rewrite length_replicate. split; [|done]. rewrite length_resize. done.
Qed.

Lemma buffers_sized_setters (p : AudioProcessor) (v : Z) (lo hi : float) :
  buffers_sized p ->
  buffers_sized (set_sample_rate lm v p) /\
  buffers_sized (set_fft_size lm v p) /\
  buffers_sized (set_hop_length v p) /\
  buffers_sized (set_window_length lm v p) /\
  buffers_sized (set_mel_bands lm v p) /\
  buffers_sized (set_frequency_range lm lo hi p).
Proof.
  intros [Hwb Hprev]. unfold buffers_sized.
  repeat split; try exact Hwb; try exact Hprev.
  - unfold set_hop_length. rewrite reset_previous_samples, length_replicate. done.
  - unfold set_window_length, reset, init_window. cbn. apply length_resize.
  - unfold set_window_length. rewrite reset_previous_samples, length_replicate. done.
Qed.

Lemma buffers_sized_process_frame (p : AudioProcessor) (samples : list float) :
  buffers_sized p -> buffers_sized (snd (process_frame lm p samples)).
Proof.
  intros [Hwb Hprev]. unfold process_frame.
  destruct (negb _); [done|]. unfold buffers_sized.
  cbn [snd window_buffer previous_samples window_length hop_length
       set_previous_samples set_windows set_fft_state].
  split.
  - rewrite (proj1 (copy_new_samples_spec _ _ _ _ _)), copy_overlap_length. done.
  - rewrite update_previous_eq, length_map, length_seq. done.
Qed.
End SetterFacts.

(** ** Streaming Frame Processor: a stream of chunks *)

Section Streaming.
Variable lm : Libm.

(** The window buffer after the two copy loops. *)
Lemma window_buffer_filled (hop wl : Z) (prev samples wb : list float) :
  Z.of_nat (length samples) = hop ->
  length wb = Z.to_nat wl ->
  length prev = Z.to_nat (Z.max 0 (wl - hop)) ->
  copy_new_samples hop wl (length prev) samples (copy_overlap prev wb) =
  take (Z.to_nat wl) (prev ++ samples).
Proof.
  intros Hhop Hwb Hprev.
  destruct (copy_new_samples_spec hop wl (length prev) samples (copy_overlap prev wb))
    as [Hlen Hlook].
  rewrite copy_overlap_length in Hlen, Hlook.
  apply list_eq. intros k. rewrite Hlook, lookup_take.
  case_decide as Hin.
  - rewrite decide_True by lia. rewrite lookup_app_r by lia.
    symmetry. apply list_lookup_lookup_total_lt. lia.
  - rewrite copy_overlap_lookup. case_decide as Hov.
    + rewrite decide_True by lia. rewrite lookup_app_l by lia.
      symmetry. apply list_lookup_lookup_total_lt. lia.
    + case_decide as Hk; [|apply lookup_ge_None_2; lia].
      exfalso. lia.
Qed.

(** The overlap kept for the next call, when the hop is no longer than
    the window. *)
Lemma update_previous_drop (hop wl : Z) (wb prev : list float) :
  (0 <= hop <= wl)%Z ->
  length wb = Z.to_nat wl ->
  length prev = Z.to_nat (wl - hop) ->
  update_previous hop wl wb prev = drop (Z.to_nat hop) wb.
Proof.
  intros Hhop Hwb Hprev. rewrite update_previous_eq.
  apply list_eq. intros k. rewrite list_lookup_fmap, lookup_drop.
  destruct (decide (k < length prev)) as [Hk|Hk].
  - rewrite lookup_seq_lt by done. cbn.
    destruct (Z.ltb_spec (hop + Z.of_nat k) wl); [|lia].
    replace (Z.to_nat (hop + Z.of_nat k)) with (Z.to_nat hop + k) by lia.
    symmetry. apply list_lookup_lookup_total_lt. lia.
  - rewrite lookup_seq_ge by lia. cbn. symmetry. apply lookup_ge_None_2. lia.
Qed.

(** One call on a chunk of the right size. *)
Lemma process_frame_step (p : AudioProcessor) (samples : list float) :
  Z.of_nat (length samples) = hop_length p ->
  buffers_sized p ->
  let wb := take (Z.to_nat (window_length p)) (previous_samples p ++ samples) in
  process_frame lm p samples =
  (frame_features lm p wb,
   set_previous_samples
     (update_previous (hop_length p) (window_length p) wb (previous_samples p))
     (set_windows (window p) wb
        (set_fft_state
           (perform_fft (H := complex_scalar lm) (bit_reverse_table p) (trig_tables p)
              (prepare_fft_input (window_length p) wb (window p) (fft_input p)))
           (fft_output p) (bit_reverse_table p) (trig_tables p) p))).
Proof.
  intros Hhop [Hwb Hprev] wb. unfold process_frame.
  rewrite Hhop, Z.eqb_refl. cbn [negb].
  rewrite (window_buffer_filled (hop_length p) (window_length p)) by done.
  reflexivity.
Qed.

Lemma process_frame_same_setup (p : AudioProcessor) (samples : list float) :
  same_setup p (snd (process_frame lm p samples)).
Proof.
  unfold process_frame. destruct (negb _); cbn [snd].
  - repeat split.
  - unfold same_setup. cbn. repeat split.
    + rewrite (proj1 (copy_new_samples_spec _ _ _ _ _)), copy_overlap_length. done.
    + rewrite perform_fft_length. unfold prepare_fft_input.
      rewrite (fill_loop_length _
        (fun i => (F32.mul (_ !!! i) (window p !!! i), F32.zero))).
      by rewrite length_replicate.
Qed.

Lemma same_setup_trans (p q r : AudioProcessor) :
  same_setup p q -> same_setup q r -> same_setup p r.
Proof.
  unfold same_setup. intros Hpq Hqr.
  repeat match goal with H : _ /\ _ |- _ => destruct H end.
  repeat split; congruence.
Qed.

Lemma process_frames_same_setup (p : AudioProcessor) (chunks : list (list float)) :
  same_setup p (process_frames lm p chunks).
Proof.
  unfold process_frames. revert p. induction chunks as [|c chunks IH]; intros p; cbn.
  - repeat split.
  - eapply same_setup_trans; [apply (process_frame_same_setup p c)|apply IH].
Qed.

Lemma frame_features_same_setup (p q : AudioProcessor) (wb : list float) :
  same_setup p q -> frame_features lm p wb = frame_features lm q wb.
Proof.
  unfold same_setup. intros Hpq.
  repeat match goal with H : _ /\ _ |- _ => destruct H end.
  unfold frame_features, prepare_fft_input. cbn zeta.
  repeat match goal with H : _ = _ |- _ => rewrite H; clear H end.
  reflexivity.
Qed.

Lemma process_frames_buffers_sized (p : AudioProcessor) (chunks : list (list float)) :
  buffers_sized p -> buffers_sized (process_frames lm p chunks).
Proof.
  unfold process_frames. revert p. induction chunks as [|c chunks IH]; intros p Hp; cbn.
  - done.
  - apply IH. by apply buffers_sized_process_frame.
Qed.

(** The overlap buffer after any number of chunks: the samples that end
    the stream. *)
Lemma process_frames_overlap (p : AudioProcessor) (chunks : list (list float)) :
  buffers_sized p ->
  (hop_length p <= window_length p)%Z ->
  Forall (fun c => Z.of_nat (length c) = hop_length p) chunks ->
  let stream := previous_samples p ++ concat chunks in
  previous_samples (process_frames lm p chunks) =
  drop (length stream - length (previous_samples p)) stream.
Proof.
  intros Hsized Hle Hall. revert p Hsized Hle Hall.
  induction chunks as [|c chunks IH]; intros p Hsized Hle Hall stream; subst stream.
  - cbn. rewrite app_nil_r, Nat.sub_diag. done.
  - apply Forall_cons in Hall as [Hc Hall].
    pose proof (process_frame_same_setup p c) as Hsame.
    pose proof (buffers_sized_process_frame lm p c Hsized) as Hsized1.
    pose proof (process_frame_step p c Hc Hsized) as Hstep. cbn zeta in Hstep.
    destruct Hsized as [Hwb Hprev].
    assert (Hhop : (0 <= hop_length p)%Z) by lia.
    assert (Hlen : length (previous_samples p ++ c) = Z.to_nat (window_length p))
      by (rewrite length_app; lia).
    rewrite take_ge in Hstep by lia.
    rewrite update_previous_drop in Hstep by lia.
    change (process_frames lm p (c :: chunks))
      with (process_frames lm (snd (process_frame lm p c)) chunks).
    set (p1 := snd (process_frame lm p c)) in *.
    assert (Hprev1 : previous_samples p1 = drop (Z.to_nat (hop_length p)) (previous_samples p ++ c))
      by (unfold p1; rewrite Hstep; reflexivity).
    destruct Hsame as (_ & Hh & Hw & _).
    rewrite IH; [|done|lia|by rewrite <- Hh].
    rewrite Hprev1. cbn [concat].
    rewrite <- (drop_app_le (previous_samples p ++ c) (concat chunks)) by lia.
    rewrite drop_drop, (app_assoc _ c). f_equal.
    rewrite ?length_drop, ?length_app. clear -Hc Hhop. lia.
Qed.

Lemma same_setup_sym (p q : AudioProcessor) : same_setup p q -> same_setup q p.
Proof.
  unfold same_setup. intros Hpq.
  repeat match goal with H : _ /\ _ |- _ => destruct H end.
  repeat split; congruence.
Qed.

Lemma reset_same_setup (p : AudioProcessor) : same_setup p (reset p).
Proof. repeat split. Qed.

Lemma buffers_sized_reset (p : AudioProcessor) : buffers_sized p -> buffers_sized (reset p).
Proof.
  intros [Hwb _]. split; [exact Hwb|].
  rewrite reset_previous_samples, length_replicate. done.
Qed.

(** A call depends on the scratch buffers through their sizes only. *)
Lemma process_frame_scratch (p q : AudioProcessor) (samples : list float) :
  same_setup p q ->
  previous_samples p = previous_samples q ->
  buffers_sized p ->
  fst (process_frame lm p samples) = fst (process_frame lm q samples) /\
  (Z.of_nat (length samples) = hop_length p ->
   process_frame lm p samples = process_frame lm q samples).
Proof.
  intros Hsame Hprev Hp.
  assert (Hq : buffers_sized q).
  { destruct Hp as [Hwb Hpr]. unfold same_setup in Hsame.
    repeat match goal with H : _ /\ _ |- _ => destruct H end.
    split; congruence. }
  assert (Hfull : Z.of_nat (length samples) = hop_length p ->
                  process_frame lm p samples = process_frame lm q samples).
  { intros Hhop.
    assert (Hhopq : Z.of_nat (length samples) = hop_length q)
      by (destruct Hsame as (_ & <- & _); done).
    rewrite (process_frame_step p samples Hhop Hp).
    rewrite (process_frame_step q samples Hhopq Hq).
    rewrite (frame_features_same_setup p q) by done.
    unfold same_setup in Hsame.
    destruct p, q; cbn in *.
    repeat match goal with H : _ /\ _ |- _ => destruct H end. subst.
    unfold set_previous_samples, set_windows, set_fft_state, prepare_fft_input. cbn.
    repeat match goal with H : length _ = length _ |- _ => rewrite H; clear H end.
    reflexivity. }
  split; [|exact Hfull].
  destruct (decide (Z.of_nat (length samples) = hop_length p)) as [Hhop|Hne].
  - by rewrite Hfull.
  - unfold process_frame. destruct Hsame as (_ & Hh & _). rewrite <- Hh.
    destruct (Z.eqb_spec (Z.of_nat (length samples)) (hop_length p)); [done|].
    reflexivity.
Qed.

(** X9. Streaming equals framing.  With [hop_length <= window_length], after
    any number of hop-sized chunks the call on the next chunk works on the
    last [window_length] samples of the stream (the overlap the processor
    started with, then every chunk in order): they are the window buffer,
    the features are computed from them alone, and the overlap kept is the
    end of the stream. *)
Theorem process_frames_sliding_window (p : AudioProcessor)
    (chunks : list (list float)) (last : list float) :
  buffers_sized p ->
  (hop_length p <= window_length p)%Z ->
  Forall (fun c => Z.of_nat (length c) = hop_length p) (chunks ++ [last]) ->
  let stream := previous_samples p ++ concat chunks ++ last in
  let current := drop (length stream - Z.to_nat (window_length p)) stream in
  let r := process_frame lm (process_frames lm p chunks) last in
  fst r = frame_features lm p current /\
  window_buffer (snd r) = current /\
  previous_samples (snd r) =
    drop (length stream - length (previous_samples p)) stream.
Proof.
  intros Hsized Hle Hall stream current r.
  apply Forall_app in Hall as [Hall Hlast]. apply (proj1 (Forall_singleton _ _)) in Hlast.
  cbn beta in Hlast.
  pose proof (process_frames_same_setup p chunks) as Hsame.
  pose proof (process_frames_buffers_sized p chunks Hsized) as Hsized'.
  pose proof (process_frames_overlap p chunks Hsized Hle Hall) as Hov. cbn zeta in Hov.
  set (p' := process_frames lm p chunks) in *.
  assert (Hh : hop_length p' = hop_length p) by (destruct Hsame as (_ & <- & _); done).
  assert (Hw : window_length p' = window_length p)
    by (destruct Hsame as (_ & _ & <- & _); done).
  assert (Hlast' : Z.of_nat (length last) = hop_length p') by congruence.
  pose proof (process_frame_step p' last Hlast' Hsized') as Hstep. cbn zeta in Hstep.
  destruct Hsized as [Hwb Hprev]. destruct Hsized' as [Hwb' Hprev'].
  rewrite Hh, Hw in *.
  assert (Hlen : length (previous_samples p' ++ last) = Z.to_nat (window_length p))
    by (rewrite length_app; lia).
  rewrite take_ge in Hstep by lia.
  rewrite update_previous_drop in Hstep by lia.
  assert (Hcur : previous_samples p' ++ last = current).
  { unfold current, stream. rewrite Hov.
    rewrite (app_assoc (previous_samples p)).
    rewrite (drop_app_le (previous_samples p ++ concat chunks) last)
      by (rewrite !length_app; clear -Hlast Hle Hprev; lia).
    f_equal. f_equal. rewrite !length_app. clear -Hlast Hle Hprev. lia. }
  subst r. rewrite Hstep. cbn [fst snd window_buffer previous_samples
    set_previous_samples set_windows set_fft_state].
  rewrite (frame_features_same_setup p' p) by (by apply same_setup_sym).
  rewrite Hcur. split; [done|]. split; [done|].
  unfold current. rewrite drop_drop. f_equal.
  unfold stream. rewrite !length_app. clear -Hlast Hle Hprev. lia.
Qed.

(** X10. A hop longer than the window.  The overlap buffer is empty, the window
    buffer holds the first [window_length] samples of the chunk, and the
    samples behind them take no part in the features. *)
Theorem process_frame_long_hop (p : AudioProcessor) (p_samples : list float) :
  buffers_sized p ->
  (window_length p < hop_length p)%Z ->
  Z.of_nat (length p_samples) = hop_length p ->
  let first := take (Z.to_nat (window_length p)) p_samples in
  let r := process_frame lm p p_samples in
  fst r = frame_features lm p first /\
  window_buffer (snd r) = first /\
  previous_samples (snd r) = [].
Proof.
  intros Hsized Hlt Hhop first r.
  pose proof (process_frame_step p p_samples Hhop Hsized) as Hstep. cbn zeta in Hstep.
  destruct Hsized as [Hwb Hprev].
  assert (Hnil : previous_samples p = []).
  { apply length_zero_iff_nil. rewrite Hprev. lia. }
  rewrite Hnil in Hstep. cbn [app] in Hstep.
  subst r. rewrite Hstep. cbn [fst snd window_buffer previous_samples
    set_previous_samples set_windows set_fft_state].
  repeat split.
Qed.

(** X11. [reset] makes the processor forget the audio it has seen: after it,
    a call returns the same features whatever was processed before, and on
    a chunk of the right size it leaves the same processor. *)
Theorem reset_forgets_history (p : AudioProcessor)
    (before before' : list (list float)) (p_samples : list float) :
  buffers_sized p ->
  let q := reset (process_frames lm p before) in
  let q' := reset (process_frames lm p before') in
  fst (process_frame lm q p_samples) = fst (process_frame lm q' p_samples) /\
  (Z.of_nat (length p_samples) = hop_length p ->
   process_frame lm q p_samples = process_frame lm q' p_samples).
Proof.
  intros Hsized q q'.
  assert (Hpq : same_setup p q).
  { eapply same_setup_trans; [apply process_frames_same_setup|apply reset_same_setup]. }
  assert (Hpq' : same_setup p q').
  { eapply same_setup_trans; [apply process_frames_same_setup|apply reset_same_setup]. }
  assert (Hqq' : same_setup q q').
  { eapply same_setup_trans; [apply same_setup_sym, Hpq|exact Hpq']. }
  assert (Hprev : previous_samples q = previous_samples q').
  { unfold q, q'. rewrite !reset_previous_samples.
    pose proof (process_frames_same_setup p before) as (_ & <- & <- & _).
    pose proof (process_frames_same_setup p before') as (_ & <- & <- & _). done. }
  assert (Hq : buffers_sized q)
    by (apply buffers_sized_reset, process_frames_buffers_sized, Hsized).
  destruct (process_frame_scratch q q' p_samples Hqq' Hprev Hq) as [Hfst Hall].
  split; [exact Hfst|]. intros Hhop. apply Hall.
  destruct Hpq as (_ & <- & _). done.
Qed.

(** X12. Step 2 with a window no longer than the transform: the windowed
    samples, then zeros up to [n_fft]; nothing of the previous frame is
    left. *)
Theorem prepare_fft_input_zero_padded (window_length : Z)
    (window_buffer window : list float) (fft_input : list complex) :
  length window_buffer = Z.to_nat window_length ->
  length window = Z.to_nat window_length ->
  Z.to_nat window_length <= length fft_input ->
  prepare_fft_input window_length window_buffer window fft_input =
  zip_with (fun x w => (F32.mul x w, F32.zero)) window_buffer window ++
  replicate (length fft_input - Z.to_nat window_length) (F32.zero, F32.zero).
Proof.
  intros Hwb Hw Hle. unfold prepare_fft_input.
  apply list_eq. intros k.
  rewrite (fill_loop_lookup _
    (fun i => (F32.mul (window_buffer !!! i) (window !!! i), F32.zero))).
  rewrite length_replicate.
  case_decide as Hk.
  - rewrite lookup_app_l by (rewrite length_zip_with; lia).
    rewrite lookup_zip_with.
    rewrite (list_lookup_lookup_total_lt window_buffer k) by lia.
    rewrite (list_lookup_lookup_total_lt window k) by lia. done.
  - destruct (decide (k < length fft_input)) as [Hin|Hout].
    + rewrite lookup_app_r by (rewrite length_zip_with; lia).
      rewrite length_zip_with, !lookup_replicate_2 by lia. done.
    + rewrite !lookup_ge_None_2; [done| |].
      * rewrite length_app, length_zip_with, length_replicate. lia.
      * rewrite length_replicate. lia.
Qed.
End Streaming.

Lemma buffers_sized_small : buffers_sized small_processor.
Proof.
  unfold small_processor.
  destruct (buffers_sized_setters RefLibm.libm (AudioProcessor_new RefLibm.libm)
              1%Z F32.zero F32.zero (buffers_sized_new _)) as (_ & _ & H1 & _).
  destruct (buffers_sized_setters RefLibm.libm _ 2%Z F32.zero F32.zero H1)
    as (_ & _ & _ & H2 & _).
  exact H2.
Qed.

Lemma process_frames_sliding_window_witness :
  let p := small_processor in
  let stream := previous_samples p ++ concat [[F32.one]] ++ [F32.half] in
  let current := drop (length stream - Z.to_nat (window_length p)) stream in
  let r := process_frame RefLibm.libm (process_frames RefLibm.libm p [[F32.one]]) [F32.half] in
  fst r = frame_features RefLibm.libm p current /\
  window_buffer (snd r) = current /\
  previous_samples (snd r) =
    drop (length stream - length (previous_samples p)) stream.
Proof.
  apply (process_frames_sliding_window RefLibm.libm small_processor [[F32.one]] [F32.half]).
  - apply buffers_sized_small.
  - change (hop_length small_processor) with 1%Z.
    change (window_length small_processor) with 2%Z. lia.
  - repeat constructor.
Defined.

Lemma buffers_sized_long_hop : buffers_sized long_hop_processor.
Proof.
  unfold long_hop_processor.
  destruct (buffers_sized_setters RefLibm.libm small_processor 3%Z F32.zero F32.zero
              buffers_sized_small) as (_ & _ & H & _).
  exact H.
Qed.

Lemma process_frame_long_hop_witness :
  let p := long_hop_processor in
  let first := take (Z.to_nat (window_length p)) [F32.one; F32.half; F32.ten] in
  let r := process_frame RefLibm.libm p [F32.one; F32.half; F32.ten] in
  fst r = frame_features RefLibm.libm p first /\
  window_buffer (snd r) = first /\
  previous_samples (snd r) = [].
Proof.
  apply (process_frame_long_hop RefLibm.libm long_hop_processor).
  - apply buffers_sized_long_hop.
  - change (hop_length long_hop_processor) with 3%Z.
    change (window_length long_hop_processor) with 2%Z. lia.
  - reflexivity.
Defined.

Lemma reset_forgets_history_witness :
  let q := reset (process_frames RefLibm.libm small_processor [[F32.one]]) in
  let q' := reset (process_frames RefLibm.libm small_processor []) in
  fst (process_frame RefLibm.libm q [F32.half]) =
    fst (process_frame RefLibm.libm q' [F32.half]) /\
  (Z.of_nat (length [F32.half]) = hop_length small_processor ->
   process_frame RefLibm.libm q [F32.half] = process_frame RefLibm.libm q' [F32.half]).
Proof.
  apply (reset_forgets_history RefLibm.libm small_processor [[F32.one]] []).
  apply buffers_sized_small.
Defined.

Lemma prepare_fft_input_zero_padded_witness :
  prepare_fft_input 2 [F32.one; F32.half] [F32.half; F32.half]
    (replicate 4 (F32.ten, F32.ten)) =
  zip_with (fun x w => (F32.mul x w, F32.zero)) [F32.one; F32.half] [F32.half; F32.half] ++
  replicate (length (replicate 4 (F32.ten, F32.ten)) - Z.to_nat 2) (F32.zero, F32.zero).
Proof.
  apply prepare_fft_input_zero_padded; [reflexivity|reflexivity|simpl; lia].
Defined.

(** ** Streaming Frame Processor: guards of the arithmetic *)


Section FrameGuards.
Variable lm : Libm.



(** X21. A window of one sample.  The Hann coefficient divides by
    [window_length - 1]: for a window of length 1 the angle is [0 / 0], a
    NaN, and with a cosine that returns a NaN for a NaN (ISO C, Annex F)
    the only coefficient of the window is a NaN. *)
Theorem hann_window_of_one (p : AudioProcessor) :
  lm_cos lm S754_nan = S754_nan ->
  window (set_window_length lm 1 p) = [S754_nan].
Proof.
  intros Hnan. unfold set_window_length, reset.
  cbn [window set_previous_samples].
  rewrite init_window_window. cbn [window_length set_window_length_field].
  change (seq 0 (Z.to_nat 1)) with [0]. cbn [map]. unfold hann_coefficient.
  change (F64.div (F64.mul (F64.mul (F64.of_float (F32.of_int 2)) F64.M_PI)
                           (F64.of_int (Z.of_nat 0)))
                  (F64.of_int (1 - 1))) with S754_nan.
  rewrite Hnan. reflexivity.
Qed.
End FrameGuards.



Lemma hann_window_of_one_witness :
  window (set_window_length RefLibm.libm 1 small_processor) = [S754_nan].
Proof. apply hann_window_of_one. reflexivity. Defined.

(** After a frame of one sample of value 1 the overlap buffer of the small
    processor holds that sample; [set_sample_rate] leaves it there, where
    a reset would have left the one zero the configuration asks for. *)
Lemma set_sample_rate_keeps_overlap :
  let p1 := snd (process_frame RefLibm.libm small_processor [F32.one]) in
  let p2 := set_sample_rate RefLibm.libm 8000 p1 in
  previous_samples p1 = [F32.one] /\
  previous_samples p2 = [F32.one] /\
  previous_samples p2 <>
    replicate (Z.to_nat (Z.max 0 (window_length p2 - hop_length p2))) F32.zero.
Proof.
  lazy. split; [reflexivity|]. split; [reflexivity|]. intros H. discriminate H.
Qed.

(** *** Witnesses on the small processor *)

Lemma process_frame_size_mismatch_witness :
  process_frame RefLibm.libm small_processor [] = ([], small_processor) /\
  previous_samples (snd (process_frame RefLibm.libm small_processor []))
    = previous_samples small_processor.
Proof.
  apply process_frame_size_mismatch. lazy. intros H. discriminate H.
Defined.

Lemma process_frame_window_and_overlap_witness :
  length (window_buffer (snd (process_frame RefLibm.libm small_processor [F32.one])))
    = Z.to_nat (window_length small_processor).
Proof.
  refine (proj1 (process_frame_window_and_overlap RefLibm.libm small_processor
                   [F32.one] _ _ _)).
  - reflexivity.
  - reflexivity.
  - lazy. lia.
Defined.

(** ** Context Buffer Scheduler *)

Lemma to_size_t_nonneg (z : Z) : (0 <= z < 2 ^ 31)%Z -> to_size_t z = z.
Proof. intros Hz. unfold to_size_t. apply Z.mod_small. lia. Qed.

Lemma trim_front_drop {A : Type} (limit : Z) (buf : list A) :
  (0 <= limit)%Z ->
  trim_front limit buf = drop (length buf - Z.to_nat limit) buf.
Proof.
  intros Hlimit. induction buf as [|x buf IH]; [done|].
  cbn [trim_front]. destruct (Z.gtb_spec (Z.of_nat (length (x :: buf))) limit) as [Hgt|Hle].
  - rewrite IH. cbn [length] in *.
    replace (S (length buf) - Z.to_nat limit) with (S (length buf - Z.to_nat limit)) by lia.
    done.
  - cbn [length] in *. replace (S (length buf) - Z.to_nat limit) with 0 by lia. done.
Qed.

Section SchedulerFacts.
Variable lm : Libm.

Lemma process_frame_config (p : AudioProcessor) (samples : list float) :
  n_mels (snd (process_frame lm p samples)) = n_mels p.
Proof. unfold process_frame. by destruct (negb _). Qed.

Lemma normalize_frame_length (n_mels : Z) (mel : list float) :
  length (normalize_frame n_mels mel) = length mel.
Proof.
  unfold normalize_frame.
  apply (for_loop_ind (fun _ acc => length acc = length mel)); [done|].
  intros i acc _ Hacc. by rewrite length_insert.
Qed.

Lemma mel_energies_length (n_fft n_mels : Z) (fi : list complex) (bank : list float) :
  length (mel_energies lm n_fft n_mels fi bank) = Z.to_nat n_mels.
Proof.
  unfold mel_energies.
  apply (for_loop_ind (fun _ acc => length acc = Z.to_nat n_mels)).
  - apply length_replicate.
  - intros i acc _ Hacc. by rewrite length_insert.
Qed.

(** A frame is empty or has [n_mels] values. *)
Lemma process_frame_length (p : AudioProcessor) (samples : list float) :
  length (fst (process_frame lm p samples)) = 0 \/
  length (fst (process_frame lm p samples)) = Z.to_nat (n_mels p).
Proof.
  unfold process_frame. destruct (negb _); [by left|right].
  cbn [fst]. by rewrite normalize_frame_length, mel_energies_length.
Qed.

(** The invariants of the hop loop: the bound on the window, the length
    of its frames, and the exit condition. *)
Lemma hop_loop_spec (fuel : nat) (cs : Z) (p : AudioProcessor)
    (ab : list float) (fb : list (list float)) (new : bool) :
  match hop_loop lm fuel cs p ab fb new with
  | (p', ab', fb', new') =>
      n_mels p' = n_mels p /\
      ((0 <= cs < 2 ^ 31)%Z -> (Z.of_nat (length fb) <= cs)%Z ->
       (Z.of_nat (length fb') <= cs)%Z) /\
      (Forall (fun f => length f = Z.to_nat (n_mels p)) fb ->
       Forall (fun f => length f = Z.to_nat (n_mels p)) fb') /\
      (length ab <= fuel * 160 -> length ab' < 160)
  end.
Proof.
  revert p ab fb new. induction fuel as [|fuel IH]; intros p ab fb new; cbn [hop_loop].
  - repeat split; try done. cbn. lia.
  - destruct (Nat.leb_spec 160 (length ab)) as [Hge|Hlt].
    2:{ repeat split; try done. }
    pose proof (process_frame_config p (take 160 ab)) as Hcfg.
    pose proof (process_frame_length p (take 160 ab)) as Hlen.
    destruct (process_frame lm p (take 160 ab)) as [features p1].
    cbn [fst snd] in Hcfg, Hlen.
    set (fb1 := (if 0 <? length features then (fb ++ [features], true) else (fb, new)).1).
    set (new1 := (if 0 <? length features then (fb ++ [features], true) else (fb, new)).2).
    replace (if 0 <? length features then (fb ++ [features], true) else (fb, new))
      with (fb1, new1) by (unfold fb1, new1; by destruct (0 <? length features)).
    cbn match.
    set (fb2 := if (Z.of_nat (length fb1) >? to_size_t cs)%Z then tail fb1 else fb1).
    specialize (IH p1 (drop 160 ab) fb2 new1).
    destruct (hop_loop lm fuel cs p1 (drop 160 ab) fb2 new1) as [[[p' ab'] fb'] new'].
    destruct IH as (IHcfg & IHbound & IHframes & IHexit).
    assert (Hfb1 : length fb1 <= S (length fb)).
    { unfold fb1. destruct (0 <? length features); cbn [fst];
        rewrite ?length_app; cbn [length]; lia. }
    repeat split.
    + congruence.
    + intros Hcs Hfb. apply IHbound; [done|]. unfold fb2.
      rewrite to_size_t_nonneg by done.
      destruct (Z.gtb_spec (Z.of_nat (length fb1)) cs) as [Hgt|Hle]; [|done].
      destruct fb1; cbn [tail length] in *; lia.
    + intros Hall. rewrite Hcfg in IHframes. apply IHframes.
      assert (Hall1 : Forall (fun f => length f = Z.to_nat (n_mels p)) fb1).
      { unfold fb1. destruct (Nat.ltb_spec 0 (length features)); cbn [fst]; [|done].
        apply Forall_app. split; [done|]. apply Forall_singleton. lia. }
      unfold fb2. destruct (_ >? _)%Z; [|done].
      destruct fb1; [done|]. by apply Forall_inv_tail in Hall1.
    + intros Hfuel. apply IHexit. rewrite length_drop. lia.
Qed.
End SchedulerFacts.

Section SchedulerTheorems.
Variable lm : Libm.

Lemma process_hops_spec (fuel : nat) (m : OnnxModel) (c : LipSyncContext)
    (blk : list (float * float)) (rate : Z) (new : bool) (c' : LipSyncContext) :
  process_hops lm fuel m c blk rate = Some (new, c') ->
  context_size c' = context_size c /\
  n_mels (processor c') = n_mels (processor c) /\
  model c' = Some m /\
  ((0 <= context_size c < 2 ^ 31)%Z -> window_bounded c -> window_bounded c') /\
  (Forall (fun f => length f = Z.to_nat (n_mels (processor c))) (feature_buffer c) ->
   Forall (fun f => length f = Z.to_nat (n_mels (processor c))) (feature_buffer c')) /\
  length (audio_buffer c') < 160.
Proof.
  unfold process_hops.
  destruct (_resample_and_push _ _ _ _ _ _) as [[ab rf]|]; [|done].
  pose proof (hop_loop_spec lm (length ab) (context_size c) (processor c) ab
                (feature_buffer c) false) as Hloop.
  destruct (hop_loop lm (length ab) (context_size c) (processor c) ab
              (feature_buffer c) false) as [[[p' ab'] fb'] new'].
  destruct Hloop as (Hcfg & Hbound & Hframes & Hexit).
  intros [= <- <-]. cbn [context_size processor model feature_buffer audio_buffer].
  unfold window_bounded. cbn [context_size feature_buffer].
  repeat split; try done. apply Hexit. lia.
Qed.

(** The bound is an invariant of every call. *)
Lemma run_call_bounded (ort : string -> option Session) (call : Call)
    (c c' : LipSyncContext) :
  capacity_ok call ->
  (0 <= context_size c < 2 ^ 31)%Z -> window_bounded c ->
  run_call lm ort call c = Some c' ->
  (0 <= context_size c' < 2 ^ 31)%Z /\ window_bounded c'.
Proof.
  intros Hok Hcs Hb. destruct call as [path|p|fuel blk rate|]; cbn [run_call capacity_ok] in *.
  - intros [= <-]. unfold load_model, OnnxModel_load_model.
    destruct (ort path); cbn [snd]; unfold window_bounded; cbn; [lia|done].
  - intros [= <-]. unfold set_context_size, window_bounded.
    cbn [context_size feature_buffer]. split; [done|].
    rewrite to_size_t_nonneg, trim_front_drop, length_drop by lia. lia.
  - unfold process. destruct (model c) as [m|]; [|by intros [= <-]].
    destruct (length blk =? 0); [by intros [= <-]|].
    destruct (process_hops lm fuel m c blk rate) as [[new c1]|] eqn:Hhops; [|done].
    intros [= <-]. apply process_hops_spec in Hhops as (Hcs' & _ & _ & Hb' & _).
    rewrite Hcs'. split; [done|]. by apply Hb'.
  - intros [= <-]. unfold LipSyncContext_reset, window_bounded. cbn. lia.
Qed.

Lemma run_calls_bounded (ort : string -> option Session) (calls : list Call)
    (c c' : LipSyncContext) :
  Forall capacity_ok calls ->
  (0 <= context_size c < 2 ^ 31)%Z -> window_bounded c ->
  run_calls lm ort calls c = Some c' ->
  window_bounded c'.
Proof.
  revert c. induction calls as [|call calls IH]; intros c Hok Hcs Hb; cbn [run_calls].
  - by intros [= <-].
  - apply Forall_cons in Hok as [Hcall Hrest].
    destruct (run_call lm ort call c) as [c1|] eqn:Hcall1; [|done].
    destruct (run_call_bounded ort call c c1 Hcall Hcs Hb Hcall1) as [Hcs1 Hb1].
    by apply IH.
Qed.

(** C5.  After any sequence of [load_model], [set_context_size],
    [process] and [reset] calls on a new context, the capacities being
    frame counts (non-negative [int] values), the Context Window holds at
    most [context_size] frames, however many hops one [process] call
    produced; and [set_context_size p] on any context [c0] leaves the
    last [p] frames of the window (all of them when there are fewer), so
    that at most [p] remain. *)
Theorem context_window_bounded (ort : string -> option Session) (calls : list Call)
    (c c0 : LipSyncContext) (p_frames : Z) :
  Forall capacity_ok calls ->
  run_calls lm ort calls (LipSyncContext_new lm) = Some c ->
  (0 <= p_frames < 2 ^ 31)%Z ->
  window_bounded c /\
  feature_buffer (set_context_size p_frames c0) =
    drop (length (feature_buffer c0) - Z.to_nat p_frames) (feature_buffer c0) /\
  window_bounded (set_context_size p_frames c0).
Proof.
  intros Hok Hrun Hp. split; [|split].
  - apply (run_calls_bounded ort calls (LipSyncContext_new lm) c Hok); [| |done].
    + cbn. lia.
    + unfold window_bounded. cbn. lia.
  - unfold set_context_size. cbn [feature_buffer].
    rewrite to_size_t_nonneg by done. apply trim_front_drop. lia.
  - unfold set_context_size, window_bounded. cbn [feature_buffer context_size].
    rewrite to_size_t_nonneg, trim_front_drop, length_drop by lia. lia.
Qed.

(** C10, for a null model handle.  While [load_model] has never been
    called, or on an empty block, [process] returns the empty array at
    once and the context it was given: accumulation buffer, resampler
    phase, Context Window and processor are untouched. *)
Theorem process_without_model (fuel : nat) (c : LipSyncContext)
    (p_audio_data : list (float * float)) (p_source_sample_rate : Z) :
  model c = None \/ p_audio_data = [] ->
  process lm fuel c p_audio_data p_source_sample_rate = Some ([], c).
Proof.
  intros [Hnull| ->]; unfold process.
  - by rewrite Hnull.
  - by destruct (model c).
Qed.

(** A handle without a session (a load that failed) still yields the
    empty array, whatever the call did to the buffers. *)
Lemma process_session_null (fuel : nat) (c c' : LipSyncContext) (m : OnnxModel)
    (blk : list (float * float)) (rate : Z) (r : list float) :
  model c = Some m -> session m = None ->
  process lm fuel c blk rate = Some (r, c') -> r = [].
Proof.
  intros Hm Hs. unfold process. rewrite Hm.
  destruct (length blk =? 0); [by intros [= <- _]|].
  destruct (process_hops lm fuel m c blk rate) as [[new c1]|]; [|done].
  intros [= <- _]. unfold infer, run_inference. rewrite Hs.
  by destruct (_ && _).
Qed.
End SchedulerTheorems.

Lemma context_window_bounded_witness :
  (length (feature_buffer evicting_context) = 1 /\
   length (feature_buffer two_frame_context) = 2 /\
   length (feature_buffer (set_context_size 1 two_frame_context)) = 1) /\
  window_bounded evicting_context /\
  feature_buffer (set_context_size 1 two_frame_context) =
    drop (length (feature_buffer two_frame_context) - Z.to_nat 1)
         (feature_buffer two_frame_context) /\
  window_bounded (set_context_size 1 two_frame_context).
Proof.
  split.
  - lazy. repeat split.
  - apply (context_window_bounded RefLibm.libm (fun _ => Some five_value_session)
             evicting_calls).
    + repeat constructor; cbn; lia.
    + unfold evicting_context.
      assert (H : match run_calls RefLibm.libm (fun _ => Some five_value_session)
                          evicting_calls (LipSyncContext_new RefLibm.libm) with
                  | Some _ => True | None => False end) by (lazy; exact I).
      destruct (run_calls RefLibm.libm (fun _ => Some five_value_session)
                  evicting_calls (LipSyncContext_new RefLibm.libm)) as [c|];
        [reflexivity|destruct H].
    + lia.
Defined.

Lemma process_without_model_witness :
  process RefLibm.libm 1 (LipSyncContext_new RefLibm.libm) [(F32.one, F32.one)] 16000 =
  Some ([], LipSyncContext_new RefLibm.libm).
Proof. apply process_without_model. left. reflexivity. Defined.

Lemma process_after_failed_load :
  model_loaded failed_load_context = false /\
  audio_buffer failed_load_context = [] /\
  match process RefLibm.libm 1 failed_load_context [(F32.one, F32.one)] 16000 with
  | Some (r, c') => r = [] /\ audio_buffer c' = [F32.one]
  | None => False
  end.
Proof.
  split; [reflexivity|]. split; [reflexivity|]. lazy. split; reflexivity.
Qed.

(** *** The inference step *)

Lemma flatten_features_concat (fb : list (list float)) (n_mels : nat) :
  Forall (fun f => length f = n_mels) fb ->
  flatten_features fb (length fb) n_mels = concat fb.
Proof.
  intros Hall. unfold flatten_features.
  set (T := length fb).
  set (P := fun (m : nat) (dest : list float) =>
    length dest = T * n_mels /\ take (m * n_mels) dest = concat (take m fb)).
  match goal with |- for_loop _ ?body ?init = _ =>
    assert (HP : P T (for_loop T body init)) end.
  { apply (for_loop_ind P); unfold P.
    - rewrite length_replicate. done.
    - intros i dest Hi [Hlen Htake].
      destruct (fill_offset_loop_spec n_mels (i * n_mels)
                  (fun j => (fb !!! i) !!! j) dest) as [Hlen' Hlook].
      split; [lia|].
      destruct (lookup_lt_is_Some_2 fb i Hi) as [frame Hframe].
      rewrite (list_lookup_total_correct _ _ _ Hframe) in *.
      assert (Hfl : length frame = n_mels)
        by (eapply (proj1 (Forall_lookup _ _) Hall); done).
      rewrite (take_S_r _ _ _ Hframe), concat_app. cbn [concat]. rewrite app_nil_r.
      assert (Hcl : length (concat (take i fb)) = i * n_mels).
      { rewrite <- Htake, length_take. apply Nat.min_l. nia. }
      assert (Hin : S i * n_mels <= T * n_mels) by nia.
      apply list_eq. intros k. rewrite lookup_take.
      destruct (decide (k < S i * n_mels)) as [Hk|Hk].
      + rewrite Hlook. case_decide as Hc.
        * rewrite lookup_app_r by lia. rewrite Hcl.
          symmetry. apply list_lookup_lookup_total_lt. lia.
        * rewrite lookup_app_l by lia. rewrite <- Htake, lookup_take.
          rewrite decide_True by lia. done.
      + symmetry. apply lookup_ge_None_2. rewrite length_app. lia. }
  destruct HP as [Hlen Htake].
  rewrite take_ge in Htake by lia. rewrite Htake, take_ge; done.
Qed.

Lemma extract_last_frame_slice (output : list float) (n_frames : nat) :
  0 < n_frames ->
  let num_visemes := length output / n_frames in
  extract_last_frame output n_frames =
  take num_visemes (drop ((n_frames - 1) * num_visemes) output).
Proof.
  intros HT w. unfold extract_last_frame. fold w.
  rewrite (fill_loop_all _ (fun i => output !!! ((n_frames - 1) * w + i)))
    by apply length_replicate.
  assert (Hle : n_frames * w <= length output) by (apply Nat.Div0.mul_div_le).
  apply list_eq. intros k. rewrite list_lookup_fmap, lookup_take.
  destruct (decide (k < w)) as [Hk|Hk].
  - rewrite lookup_seq_lt by done. cbn. rewrite lookup_drop.
    symmetry. apply list_lookup_lookup_total_lt. nia.
  - rewrite lookup_seq_ge by lia. done.
Qed.

Lemma downmix_length (blk : list (float * float)) : length (downmix blk) = length blk.
Proof.
  unfold downmix.
  rewrite (fill_loop_length _
    (fun i => F32.mul (F32.add (fst (blk !!! i)) (snd (blk !!! i))) F32.half)).
  apply length_replicate.
Qed.

(** A block at the target rate that leaves fewer than 160 samples in the
    accumulation buffer is buffered and produces no frame. *)
Lemma process_hops_short (lm : Libm) (fuel : nat) (m : OnnxModel) (c : LipSyncContext)
    (blk : list (float * float)) (rate : Z) :
  rate = target_sample_rate c ->
  blk <> [] ->
  length (audio_buffer c) + length blk < 160 ->
  process_hops lm fuel m c blk rate =
  Some (false,
        mkLipSyncContext (processor c) (Some m) (audio_buffer c ++ downmix blk)
          (feature_buffer c) (context_size c) (target_sample_rate c)
          (resample_fraction c)).
Proof.
  intros -> Hblk Hshort. unfold process_hops, _resample_and_push.
  rewrite downmix_length.
  destruct (Z.eqb_spec (Z.of_nat (length blk)) 0) as [Hz|_];
    [destruct blk; cbn in *; [done|lia]|].
  rewrite Z.eqb_refl. cbn [negb].
  assert (Hlen : length (audio_buffer c ++ downmix blk) < 160)
    by (rewrite length_app, downmix_length; done).
  destruct (length (audio_buffer c ++ downmix blk)) as [|n] eqn:Hn; cbn [hop_loop].
  - done.
  - destruct (Nat.leb_spec 160 (length (audio_buffer c ++ downmix blk))); [lia|done].
Qed.

(** At the target rate the resampler appends the chunk as it is. *)
Lemma resample_same_rate_identity (fuel : nat) (rate : Z)
    (audio_buffer : list float) (resample_fraction : float) (input : list float) :
  _resample_and_push fuel rate audio_buffer resample_fraction input rate =
  Some (audio_buffer ++ input, resample_fraction).
Proof.
  unfold _resample_and_push.
  destruct (Z.eqb_spec (Z.of_nat (length input)) 0) as [Hz|_].
  - destruct input; [by rewrite app_nil_r|]. cbn in Hz. lia.
  - by rewrite Z.eqb_refl.
Qed.

(** *** The hop loop in closed form *)

Lemma hop_chunks_nil (ab : list float) : length ab < 160 -> hop_chunks ab = [].
Proof. intros Hlt. unfold hop_chunks. rewrite Nat.div_small by done. done. Qed.

Lemma hop_count_step (ab : list float) :
  160 <= length ab -> length ab / 160 = S (length (drop 160 ab) / 160).
Proof.
  intros Hge. rewrite length_drop.
  replace (length ab) with (1 * 160 + (length ab - 160)) at 1 by lia.
  rewrite Nat.div_add_l by lia. lia.
Qed.

Lemma hop_chunks_cons (ab : list float) :
  160 <= length ab -> hop_chunks ab = take 160 ab :: hop_chunks (drop 160 ab).
Proof.
  intros Hge. unfold hop_chunks. rewrite (hop_count_step ab Hge).
  cbn [seq map]. rewrite Nat.mul_0_r, drop_0. f_equal.
  rewrite <- seq_shift, map_map. apply map_ext. intros i.
  rewrite drop_drop. do 2 f_equal. lia.
Qed.

Lemma hop_chunks_length (ab : list float) : length (hop_chunks ab) = length ab / 160.
Proof. unfold hop_chunks. by rewrite length_map, length_seq. Qed.

Lemma hop_chunks_sized (ab : list float) :
  Forall (fun chunk => length chunk = 160) (hop_chunks ab).
Proof.
  unfold hop_chunks. apply Forall_forall. intros chunk Hin.
  apply list_elem_of_fmap in Hin as (i & -> & Hi).
  apply elem_of_seq in Hi.
  rewrite length_take, length_drop.
  pose proof (Nat.Div0.mul_div_le (length ab) 160).
  assert (160 * S i <= length ab) by nia. lia.
Qed.

Lemma last_n_app_last_n {A : Type} (n : nat) (l k : list A) :
  last_n n (last_n n l ++ k) = last_n n (l ++ k).
Proof.
  unfold last_n. rewrite !length_app, length_drop.
  destruct (decide (length l <= n)) as [Hle|Hgt].
  - replace (length l - n) with 0 by lia. rewrite drop_0. do 2 f_equal. lia.
  - rewrite <- (drop_app_le l k) by lia. rewrite drop_drop. f_equal. lia.
Qed.

Section HopLoop.
Variable lm : Libm.

(** A chunk of [hop_length] samples gives a frame of [n_mels] values. *)
Lemma process_frame_features_length (p : AudioProcessor) (chunk : list float) :
  Z.of_nat (length chunk) = hop_length p ->
  length (fst (process_frame lm p chunk)) = Z.to_nat (n_mels p).
Proof.
  intros Hhop. unfold process_frame. rewrite Hhop, Z.eqb_refl. cbn [negb fst].
  by rewrite normalize_frame_length, mel_energies_length.
Qed.

Lemma frames_of_length (p : AudioProcessor) (chunks : list (list float)) :
  length (frames_of lm p chunks) = length chunks.
Proof.
  revert p. induction chunks as [|c chunks IH]; intros p; cbn [frames_of length]; [done|].
  by rewrite IH.
Qed.

Lemma frames_of_sized (p : AudioProcessor) (chunks : list (list float)) :
  Forall (fun chunk => Z.of_nat (length chunk) = hop_length p) chunks ->
  Forall (fun f => length f = Z.to_nat (n_mels p)) (frames_of lm p chunks).
Proof.
  revert p. induction chunks as [|c chunks IH]; intros p Hall; cbn [frames_of].
  - constructor.
  - apply Forall_cons in Hall as [Hc Hall].
    pose proof (process_frame_same_setup lm p c) as (_ & Hh & _ & _ & Hm & _).
    constructor.
    + by apply process_frame_features_length.
    + rewrite Hm. apply IH. by rewrite <- Hh.
Qed.

(** The hop loop in closed form, for a processor whose hop is the 160
    samples the loop takes and whose frames are not empty. *)
Lemma hop_loop_closed (fuel : nat) (cs : Z) (p : AudioProcessor)
    (ab : list float) (fb : list (list float)) (new : bool) :
  hop_length p = 160%Z ->
  0 < Z.to_nat (n_mels p) ->
  (0 <= cs < 2 ^ 31)%Z ->
  length fb <= Z.to_nat cs ->
  length ab / 160 <= fuel ->
  hop_loop lm fuel cs p ab fb new =
  (process_frames lm p (hop_chunks ab),
   drop (160 * (length ab / 160)) ab,
   last_n (Z.to_nat cs) (fb ++ frames_of lm p (hop_chunks ab)),
   new || (0 <? length ab / 160)).
Proof.
  intros Hhop Hmel Hcs. revert p ab fb new Hhop Hmel.
  induction fuel as [|fuel IH]; intros p ab fb new Hhop Hmel Hfb Hfuel.
  - assert (Hlt : length ab < 160).
    { destruct (Nat.lt_ge_cases (length ab) 160) as [|Hge]; [done|].
      rewrite (hop_count_step ab Hge) in Hfuel. lia. }
    cbn [hop_loop]. rewrite (hop_chunks_nil ab Hlt), Nat.div_small by done.
    cbn [process_frames fold_left frames_of]. rewrite app_nil_r, orb_false_r.
    unfold last_n. replace (length fb - Z.to_nat cs) with 0 by lia. done.
  - cbn [hop_loop]. destruct (Nat.leb_spec 160 (length ab)) as [Hge|Hlt].
    2:{ rewrite (hop_chunks_nil ab Hlt), Nat.div_small by done.
        cbn [process_frames fold_left frames_of]. rewrite app_nil_r, orb_false_r.
        unfold last_n. replace (length fb - Z.to_nat cs) with 0 by lia. done. }
    rewrite (hop_chunks_cons ab Hge), (hop_count_step ab Hge).
    cbn [process_frames fold_left frames_of].
    pose proof (process_frame_same_setup lm p (take 160 ab)) as (_ & Hh & _ & _ & Hm & _).
    assert (Hchunk : Z.of_nat (length (take 160 ab)) = hop_length p)
      by (rewrite length_take; lia).
    pose proof (process_frame_features_length p (take 160 ab) Hchunk) as Hlen.
    destruct (process_frame lm p (take 160 ab)) as [features p1].
    cbn [fst snd] in *.
    destruct (Nat.ltb_spec 0 (length features)) as [_|Hz]; [|lia].
    rewrite to_size_t_nonneg by done.
    set (fb2 := if (Z.of_nat (length (fb ++ [features])) >? cs)%Z
                then tail (fb ++ [features]) else fb ++ [features]).
    assert (Hfb2 : fb2 = last_n (Z.to_nat cs) (fb ++ [features])).
    { unfold fb2, last_n. rewrite length_app. cbn [length].
      destruct (Z.gtb_spec (Z.of_nat (length fb + 1)) cs) as [Hgt|Hle].
      - replace (length fb + 1 - Z.to_nat cs) with 1 by lia.
        by destruct (fb ++ [features]).
      - replace (length fb + 1 - Z.to_nat cs) with 0 by lia. done. }
    rewrite (IH p1 (drop 160 ab) fb2 true); [|congruence|congruence| |].
    + rewrite Hfb2, last_n_app_last_n, <- app_assoc. cbn [app].
      rewrite drop_drop, orb_true_r.
      replace (160 + 160 * (length (drop 160 ab) / 160))
        with (160 * S (length (drop 160 ab) / 160)) by lia.
      reflexivity.
    + rewrite Hfb2. unfold last_n. rewrite length_drop, length_app. cbn [length]. lia.
    + rewrite (hop_count_step ab Hge) in Hfuel. lia.
Qed.
End HopLoop.

Lemma concat_length_sized {A : Type} (n : nat) (l : list (list A)) :
  Forall (fun f => length f = n) l -> length (concat l) = length l * n.
Proof.
  induction 1 as [|f l Hf _ IH]; [done|].
  cbn [concat length]. rewrite length_app, IH, Hf. lia.
Qed.

Section InferenceClosed.
Variable lm : Libm.

(** C6, with the slice the code takes.  In a [process] call that reaches
    the hop loop on a context as the bound methods leave it (a hop of 160
    samples, frames of 80 values, a window within its capacity), the loop
    runs [process_frame] on every 160-sample chunk of the resampled
    buffer, appends each frame to the Context Window and keeps the last
    [context_size] frames.  When at least one frame was produced and the
    window is not empty, the engine receives the frames of the window
    concatenated in order ([frame_count * 80] values); a non-empty output
    yields its [output_width] values from index
    [(frame_count - 1) * output_width] on, where [output_width] is the
    output size divided by [frame_count], rounded down: the last
    [output_width] values when [frame_count] divides the output size.  In
    every other case (no frame produced, an empty window, an empty output)
    the result is empty. *)
Theorem process_inference (fuel : nat) (c : LipSyncContext) (m : OnnxModel)
    (p_audio_data : list (float * float)) (p_source_sample_rate : Z)
    (resampled : list float) (phase : float) :
  model c = Some m ->
  p_audio_data <> [] ->
  hop_length (processor c) = 160%Z ->
  n_mels (processor c) = 80%Z ->
  (0 <= context_size c < 2 ^ 31)%Z ->
  window_bounded c ->
  Forall (fun f => length f = 80) (feature_buffer c) ->
  _resample_and_push fuel (target_sample_rate c) (audio_buffer c)
    (resample_fraction c) (downmix p_audio_data) p_source_sample_rate
    = Some (resampled, phase) ->
  let chunks := hop_chunks resampled in
  let frames := frames_of lm (processor c) chunks in
  let kept := last_n (Z.to_nat (context_size c)) (feature_buffer c ++ frames) in
  let frame_count := length kept in
  let tensor := concat kept in
  let output := run_inference m tensor in
  let output_width := length output / frame_count in
  length frames = length resampled / 160 /\
  Forall (fun f => length f = 80) frames /\
  length tensor = frame_count * 80 /\
  process lm fuel c p_audio_data p_source_sample_rate =
    Some (if (0 <? length frames) && negb (bool_decide (frame_count = 0))
          then if bool_decide (output = []) then []
               else take output_width (drop ((frame_count - 1) * output_width) output)
          else [],
          mkLipSyncContext (process_frames lm (processor c) chunks) (Some m)
            (drop (160 * length chunks) resampled) kept
            (context_size c) (target_sample_rate c) phase) /\
  (length output mod frame_count = 0 ->
   take output_width (drop ((frame_count - 1) * output_width) output) =
   drop (length output - output_width) output).
Proof.
  intros Hm Hblk Hhop Hmels Hcs Hbound Hfb Hres chunks frames kept T tensor output w.
  assert (Hframes_len : length frames = length resampled / 160).
  { unfold frames, chunks. by rewrite frames_of_length, hop_chunks_length. }
  assert (Hframes : Forall (fun f => length f = 80) frames).
  { unfold frames, chunks.
    pose proof (frames_of_sized lm (processor c) (hop_chunks resampled)) as Hs.
    rewrite Hmels in Hs. apply Hs.
    eapply Forall_impl; [apply hop_chunks_sized|].
    intros chunk Hc. cbn beta in Hc. rewrite Hc, Hhop. done. }
  assert (Hkept : Forall (fun f => length f = 80) kept).
  { unfold kept, last_n. apply Forall_drop, Forall_app. done. }
  split; [done|]. split; [done|]. split; [|split].
  - unfold tensor, T. by apply concat_length_sized.
  - unfold process. rewrite Hm.
    destruct (Nat.eqb_spec (length p_audio_data) 0) as [Hz|_];
      [by destruct p_audio_data|].
    unfold process_hops. rewrite Hres.
    unfold window_bounded in Hbound.
    rewrite (hop_loop_closed lm (length resampled) (context_size c) (processor c)
               resampled (feature_buffer c) false Hhop);
      [|rewrite Hmels; lia|done|lia|apply Nat.Div0.div_le_upper_bound; lia].
    fold chunks frames kept. cbn [orb feature_buffer].
    assert (Hchunks_len : length chunks = length resampled / 160)
      by apply hop_chunks_length.
    rewrite Hframes_len, Hchunks_len.
    do 2 f_equal. unfold infer.
    rewrite (flatten_features_concat kept 80 Hkept). fold tensor output T.
    assert (Hnil : bool_decide (kept = []) = bool_decide (T = 0)).
    { apply bool_decide_ext. unfold T. by destruct kept. }
    rewrite Hnil. destruct (0 <? length resampled / 160); [|done]. cbn [andb].
    destruct (bool_decide_reflect (T = 0)) as [HT|HT]; [done|]. cbn [negb].
    destruct (bool_decide_reflect (output = [])) as [->|Hout]; [done|].
    destruct (Nat.ltb_spec 0 (length output)) as [_|Hz];
      [|by destruct output; cbn in *; try lia].
    apply extract_last_frame_slice. lia.
  - intros Hdiv. destruct (decide (T = 0)) as [HT|HT].
    { subst w. rewrite HT. change (length output / 0) with 0.
      rewrite Nat.sub_0_r, drop_all. done. }
    assert (Hlen : length output = T * w).
    { pose proof (Nat.div_mod_eq (length output) T). subst w. lia. }
    replace (length output - w) with ((T - 1) * w) by nia.
    apply take_ge. rewrite length_drop. nia.
Qed.
End InferenceClosed.

Lemma process_inference_witness :
  let c := loaded_context in
  let m := mkOnnxModel (Some five_value_session) in
  let resampled := audio_buffer c ++ downmix two_hop_block in
  let chunks := hop_chunks resampled in
  let frames := frames_of RefLibm.libm (processor c) chunks in
  let kept := last_n (Z.to_nat (context_size c)) (feature_buffer c ++ frames) in
  let frame_count := length kept in
  let tensor := concat kept in
  let output := run_inference m tensor in
  let output_width := length output / frame_count in
  length chunks = 2 /\
  length frames = length resampled / 160 /\
  Forall (fun f => length f = 80) frames /\
  length tensor = frame_count * 80 /\
  process RefLibm.libm 1 c two_hop_block 16000 =
    Some (if (0 <? length frames) && negb (bool_decide (frame_count = 0))
          then if bool_decide (output = []) then []
               else take output_width (drop ((frame_count - 1) * output_width) output)
          else [],
          mkLipSyncContext (process_frames RefLibm.libm (processor c) chunks) (Some m)
            (drop (160 * length chunks) resampled) kept
            (context_size c) (target_sample_rate c) (resample_fraction c)) /\
  (length output mod frame_count = 0 ->
   take output_width (drop ((frame_count - 1) * output_width) output) =
   drop (length output - output_width) output).
Proof.
  split.
  - rewrite hop_chunks_length, length_app, downmix_length. reflexivity.
  - apply (process_inference RefLibm.libm 1 loaded_context
             (mkOnnxModel (Some five_value_session)) two_hop_block 16000).
    + reflexivity.
    + discriminate.
    + reflexivity.
    + reflexivity.
    + change (context_size loaded_context) with 100%Z. lia.
    + unfold window_bounded. change (feature_buffer loaded_context) with (@nil (list float)).
      change (context_size loaded_context) with 100%Z. cbn. lia.
    + change (feature_buffer loaded_context) with (@nil (list float)). constructor.
    + apply (resample_same_rate_identity 1 16000).
Defined.

(** *** The configuration of a context *)

Lemma trim_front_Forall {A : Type} (P : A -> Prop) (limit : Z) (buf : list A) :
  Forall P buf -> Forall P (trim_front limit buf).
Proof.
  induction 1 as [|x buf Hx Hbuf IH]; cbn [trim_front]; [constructor|].
  destruct (_ >? _)%Z; [done|]. by constructor.
Qed.

Section SchedulerInvariant.
Variable lm : Libm.

Lemma hop_loop_setup (fuel : nat) (cs : Z) (p : AudioProcessor)
    (ab : list float) (fb : list (list float)) (new : bool) :
  same_setup p (hop_loop lm fuel cs p ab fb new).1.1.1 /\
  (buffers_sized p -> buffers_sized (hop_loop lm fuel cs p ab fb new).1.1.1).
Proof.
  revert p ab fb new. induction fuel as [|fuel IH]; intros p ab fb new; cbn [hop_loop].
  - split; [unfold same_setup; split_and!; reflexivity|done].
  - destruct (160 <=? length ab);
      [|split; [unfold same_setup; split_and!; reflexivity|done]].
    pose proof (process_frame_same_setup lm p (take 160 ab)) as Hsame.
    pose proof (buffers_sized_process_frame lm p (take 160 ab)) as Hsized.
    destruct (process_frame lm p (take 160 ab)) as [features p1]. cbn [snd] in *.
    destruct (0 <? length features);
      match goal with |- context [hop_loop lm fuel cs p1 ?a ?b ?n] =>
        destruct (IH p1 a b n) as [IH1 IH2] end;
      (split; [eapply same_setup_trans; eassumption|auto]).
Qed.

Lemma context_configured_new : context_configured (LipSyncContext_new lm).
Proof.
  unfold context_configured. split_and!; try reflexivity; [|constructor].
  unfold LipSyncContext_new. cbn [processor].
  destruct (buffers_sized_setters lm (AudioProcessor_new lm) 16000%Z
              F32.zero F32.zero (buffers_sized_new lm)) as (H1 & _).
  destruct (buffers_sized_setters lm _ 160%Z F32.zero F32.zero H1)
    as (_ & _ & H2 & _).
  destruct (buffers_sized_setters lm _ 400%Z F32.zero F32.zero H2)
    as (_ & _ & _ & H3 & _).
  destruct (buffers_sized_setters lm _ 80%Z F32.zero F32.zero H3)
    as (_ & _ & _ & _ & H4 & _).
  exact H4.
Qed.

Lemma run_call_configured (ort : string -> option Session) (call : Call)
    (c c' : LipSyncContext) :
  context_configured c ->
  run_call lm ort call c = Some c' ->
  context_configured c'.
Proof.
  intros (Hsr & Hhop & Hwl & Hfft & Hmel & Htsr & Hsized & Hfb).
  destruct call as [path|p|fuel blk rate|]; cbn [run_call].
  - intros [= <-]. unfold load_model, OnnxModel_load_model.
    destruct (ort path); cbn [snd].
    + unfold context_configured, LipSyncContext_reset.
      cbn [processor feature_buffer target_sample_rate].
      split_and!; try done. by apply buffers_sized_reset.
    + unfold context_configured. cbn [processor feature_buffer target_sample_rate].
      split_and!; done.
  - intros [= <-]. unfold context_configured, set_context_size.
    cbn [processor feature_buffer target_sample_rate].
    split_and!; try done. by apply trim_front_Forall.
  - unfold process. destruct (model c) as [m|].
    2:{ intros [= <-]. unfold context_configured. split_and!; done. }
    destruct (length blk =? 0).
    { intros [= <-]. unfold context_configured. split_and!; done. }
    destruct (process_hops lm fuel m c blk rate) as [[new c1]|] eqn:Hhops; [|done].
    intros [= <-].
    pose proof (process_hops_spec lm _ _ _ _ _ _ _ Hhops) as (_ & _ & _ & _ & Hfr & _).
    rewrite Hmel in Hfr. specialize (Hfr Hfb).
    unfold process_hops in Hhops.
    destruct (_resample_and_push _ _ _ _ _ _) as [[ab rf]|]; [|done].
    pose proof (hop_loop_setup (length ab) (context_size c) (processor c) ab
                  (feature_buffer c) false) as [Hsame Hsz].
    destruct (hop_loop lm (length ab) (context_size c) (processor c) ab
                (feature_buffer c) false) as [[[p' ab'] fb'] new'].
    cbn [fst] in Hsame, Hsz. injection Hhops as _ <-.
    cbn [feature_buffer] in Hfr.
    destruct Hsame as (H1 & H2 & H3 & H4 & H5 & _).
    unfold context_configured. cbn [processor feature_buffer target_sample_rate].
    specialize (Hsz Hsized).
    split_and!; try congruence; done.
  - intros [= <-]. unfold context_configured, LipSyncContext_reset.
    cbn [processor feature_buffer target_sample_rate].
    split_and!; try done. by apply buffers_sized_reset.
Qed.

(** X13. Whatever the host calls among the bound methods of a context,
    the processor keeps the configuration the constructor gave it
    (16 kHz, a hop of 160, a window of 400, a transform of 1024, 80
    bands), its buffers keep their sizes, and every frame of the Context
    Window has 80 values: the constants hard-coded in [process] agree
    with the processor, so each hop yields one frame and the flattening
    loop reads inside every frame. *)
Theorem run_calls_configured (ort : string -> option Session) (calls : list Call)
    (c : LipSyncContext) :
  run_calls lm ort calls (LipSyncContext_new lm) = Some c ->
  context_configured c.
Proof.
  assert (Hgen : forall c0, context_configured c0 ->
            run_calls lm ort calls c0 = Some c -> context_configured c).
  { induction calls as [|call calls IH]; intros c0 Hc0; cbn [run_calls].
    - by intros [= <-].
    - destruct (run_call lm ort call c0) as [c1|] eqn:Hcall; [|done].
      apply IH. by eapply run_call_configured. }
  apply Hgen, context_configured_new.
Qed.
End SchedulerInvariant.

Lemma run_calls_configured_witness : context_configured evicting_context.
Proof.
  apply (run_calls_configured RefLibm.libm (fun _ => Some five_value_session)
           evicting_calls).
  unfold evicting_context.
  assert (H : match run_calls RefLibm.libm (fun _ => Some five_value_session)
                      evicting_calls (LipSyncContext_new RefLibm.libm) with
              | Some _ => True | None => False end) by (lazy; exact I).
  destruct (run_calls RefLibm.libm (fun _ => Some five_value_session)
              evicting_calls (LipSyncContext_new RefLibm.libm)) as [c|];
    [reflexivity|destruct H].
Defined.

Section HopMismatch.
Variable lm : Libm.

Lemma hop_loop_mismatch (fuel : nat) (cs : Z) (p : AudioProcessor)
    (ab : list float) (fb : list (list float)) (new : bool) :
  hop_length p <> 160%Z ->
  (0 <= cs < 2 ^ 31)%Z ->
  length fb <= Z.to_nat cs ->
  length ab / 160 <= fuel ->
  hop_loop lm fuel cs p ab fb new =
  (p, drop (160 * (length ab / 160)) ab, fb, new).
Proof.
  intros Hhop Hcs Hfb. revert ab.
  induction fuel as [|fuel IH]; intros ab Hfuel.
  - assert (Hlt : length ab < 160).
    { destruct (Nat.lt_ge_cases (length ab) 160) as [|Hge]; [done|].
      rewrite (hop_count_step ab Hge) in Hfuel. lia. }
    cbn [hop_loop]. by rewrite Nat.div_small.
  - cbn [hop_loop]. destruct (Nat.leb_spec 160 (length ab)) as [Hge|Hlt].
    2:{ by rewrite Nat.div_small. }
    assert (Hframe : process_frame lm p (take 160 ab) = ([], p)).
    { unfold process_frame. rewrite length_take.
      destruct (Z.eqb_spec (Z.of_nat (160 `min` length ab)) (hop_length p)) as [Heq|_];
        [lia|done]. }
    rewrite Hframe. cbn [length Nat.ltb Nat.leb].
    rewrite to_size_t_nonneg by done.
    destruct (Z.gtb_spec (Z.of_nat (length fb)) cs) as [Hgt|_]; [lia|].
    rewrite IH by (rewrite (hop_count_step ab Hge) in Hfuel; lia).
    rewrite drop_drop, (hop_count_step ab Hge).
    replace (160 * S (length (drop 160 ab) / 160))
      with (160 + 160 * (length (drop 160 ab) / 160)) by lia.
    reflexivity.
Qed.

(** X14. The hop loop of [process] takes 160 samples at a time whatever
    the hop of the processor is.  On a context whose processor has
    another hop length (a host can set it through [get_processor]),
    every [process_frame] call of the loop fails on the size of its
    input: the call consumes every whole block of 160 samples, leaves
    the processor and the Context Window as they were, and returns an
    empty result. *)
Theorem process_hop_mismatch (fuel : nat) (c : LipSyncContext) (m : OnnxModel)
    (p_audio_data : list (float * float)) (p_source_sample_rate : Z)
    (resampled : list float) (phase : float) :
  model c = Some m ->
  p_audio_data <> [] ->
  hop_length (processor c) <> 160%Z ->
  (0 <= context_size c < 2 ^ 31)%Z ->
  window_bounded c ->
  _resample_and_push fuel (target_sample_rate c) (audio_buffer c)
    (resample_fraction c) (downmix p_audio_data) p_source_sample_rate
    = Some (resampled, phase) ->
  process lm fuel c p_audio_data p_source_sample_rate =
  Some ([],
        mkLipSyncContext (processor c) (Some m)
          (drop (160 * (length resampled / 160)) resampled) (feature_buffer c)
          (context_size c) (target_sample_rate c) phase).
Proof.
  intros Hm Hblk Hhop Hcs Hbound Hres. unfold process. rewrite Hm.
  destruct (Nat.eqb_spec (length p_audio_data) 0) as [Hz|_];
    [by destruct p_audio_data|].
  unfold process_hops. rewrite Hres. unfold window_bounded in Hbound.
  rewrite (hop_loop_mismatch (length resampled) (context_size c) (processor c)
             resampled (feature_buffer c) false Hhop Hcs);
    [|lia|apply Nat.Div0.div_le_upper_bound; lia].
  reflexivity.
Qed.
End HopMismatch.

Lemma process_hop_mismatch_witness :
  process RefLibm.libm 1 rehopped_context two_hop_block 16000 =
  Some ([],
        mkLipSyncContext (processor rehopped_context)
          (Some (mkOnnxModel (Some five_value_session)))
          (drop (160 * (length (audio_buffer rehopped_context ++ downmix two_hop_block)
                        / 160))
                (audio_buffer rehopped_context ++ downmix two_hop_block))
          (feature_buffer rehopped_context)
          (context_size rehopped_context) (target_sample_rate rehopped_context)
          (resample_fraction rehopped_context)).
Proof.
  apply (process_hop_mismatch RefLibm.libm 1 rehopped_context
           (mkOnnxModel (Some five_value_session)) two_hop_block 16000).
  - reflexivity.
  - discriminate.
  - change (hop_length (processor rehopped_context)) with 256%Z. lia.
  - change (context_size rehopped_context) with 100%Z. lia.
  - unfold window_bounded.
    change (feature_buffer rehopped_context) with (@nil (list float)).
    change (context_size rehopped_context) with 100%Z. cbn. lia.
  - apply (resample_same_rate_identity 1 16000).
Defined.

(** An output whose size the frame count does not divide: five values for
    two frames.  [process] returns the values at index 2 and 3; the last
    two values are those at index 3 and 4. *)
Lemma process_slice_not_last :
  match process RefLibm.libm 1 loaded_context two_hop_block 16000 with
  | Some (r, c') =>
      length (feature_buffer c') = 2 /\
      run_inference (mkOnnxModel (Some five_value_session))
        (concat (feature_buffer c')) = [F32.one; F32.half; F32.ten; F32.one; F32.zero] /\
      r = [F32.ten; F32.one] /\
      r <> drop (5 - 5 / 2) [F32.one; F32.half; F32.ten; F32.one; F32.zero]
  | None => False
  end.
Proof.
  lazy. split; [reflexivity|]. split; [reflexivity|]. split; [reflexivity|].
  intros H. discriminate H.
Qed.

(** *** The resampler's carried phase *)

(** C4 fails on the code.  Two samples at 8000 Hz for a target of
    16000 Hz ([ratio = 0.5]), phase 0: the loop leaves the cursor at
    [count - 1 = 1], the carried phase [1 - 2] is negative, the guard adds
    [ratio], and the phase stored for the next call is [-0.5], outside
    [[0, ratio)]. *)
Lemma resample_phase_negative :
  resample_loop 3 [F32.one; F32.one] 2 F32.half F32.zero []
    = Some (F32.one, [F32.one; F32.one]) /\
  F32.ltb (F32.sub F32.one (F32.of_int 2)) F32.zero = true /\
  _resample_and_push 3 16000 [] F32.zero [F32.one; F32.one] 8000
    = Some ([F32.one; F32.one], S754_finite true 8388608 (-24)) /\
  F32.leb F32.zero (S754_finite true 8388608 (-24)) = false.
Proof. repeat split; vm_compute; reflexivity. Qed.

(** *** A source rate of zero *)

(** Adding a zero leaves a cursor where it is, up to the sign of a zero,
    which no comparison sees. *)
Lemma SFltb_add_zero (x y : spec_float) (s : bool) :
  SFltb (SFadd 24 128 x (S754_zero s)) y = SFltb x y.
Proof.
  destruct x as [sx|sx| |sx mx ex]; [|reflexivity..].
  destruct sx, s, y; reflexivity.
Qed.

Lemma resample_loop_stalls (fuel : nat) (input : list float) (count : Z)
    (s : bool) (current_pos : float) (audio_buffer : list float) :
  F32.ltb current_pos (F32.of_int (count - 1)) = true ->
  resample_loop fuel input count (S754_zero s) current_pos audio_buffer = None.
Proof.
  revert current_pos audio_buffer.
  induction fuel as [|fuel IH]; intros current_pos audio_buffer Hlt; cbn [resample_loop].
  - reflexivity.
  - rewrite Hlt. apply IH. unfold F32.ltb, F32.add. by rewrite SFltb_add_zero.
Qed.

(** X16. A source sample rate of 0.  The ratio [0 / 16000] is zero, so
    the cursor of the interpolation loop never advances: with a carried
    phase that is not negative (every read of the loop is then inside the
    block) and below [count - 1], the loop appends a sample in every round
    and never exits, and [process] does not return, however many rounds
    it is given. *)
Theorem process_zero_rate_never_returns (lm : Libm) (fuel : nat)
    (c : LipSyncContext) (m : OnnxModel) (p_audio_data : list (float * float)) :
  model c = Some m ->
  p_audio_data <> [] ->
  target_sample_rate c = 16000%Z ->
  F32.leb F32.zero (resample_fraction c) = true ->
  F32.ltb (resample_fraction c)
          (F32.of_int (Z.of_nat (length p_audio_data) - 1)) = true ->
  process lm fuel c p_audio_data 0 = None.
Proof.
  intros Hm Hblk Htsr _ Hlt. unfold process. rewrite Hm.
  destruct (Nat.eqb_spec (length p_audio_data) 0) as [Hz|Hnz];
    [by destruct p_audio_data|].
  unfold process_hops, _resample_and_push. rewrite downmix_length, Htsr.
  destruct (Z.eqb_spec (Z.of_nat (length p_audio_data)) 0) as [Hz|_]; [lia|].
  change (negb (0 =? 16000)%Z) with true. cbn match.
  change (F32.div (F32.of_int 0) (F32.of_int 16000)) with (S754_zero false).
  by rewrite resample_loop_stalls.
Qed.

Lemma process_zero_rate_never_returns_witness :
  process RefLibm.libm 1000 loaded_context two_hop_block 0 = None.
Proof.
  apply (process_zero_rate_never_returns RefLibm.libm 1000 loaded_context
           (mkOnnxModel (Some five_value_session)));
    [reflexivity|discriminate|reflexivity|reflexivity|reflexivity].
Defined.

(** ** Further properties of the scheduler *)

(** X4. A block at the target rate that leaves fewer than 160 samples in
    the accumulation buffer is buffered whole: no frame is produced, the
    result is empty, and only the accumulation buffer changes. *)
Theorem process_short_block (lm : Libm) (fuel : nat) (c : LipSyncContext)
    (m : OnnxModel) (p_audio_data : list (float * float)) :
  model c = Some m ->
  p_audio_data <> [] ->
  length (audio_buffer c) + length p_audio_data < 160 ->
  process lm fuel c p_audio_data (target_sample_rate c) =
  Some ([],
        mkLipSyncContext (processor c) (Some m)
          (audio_buffer c ++ downmix p_audio_data) (feature_buffer c)
          (context_size c) (target_sample_rate c) (resample_fraction c)).
Proof.
  intros Hm Hblk Hshort. unfold process. rewrite Hm.
  destruct (Nat.eqb_spec (length p_audio_data) 0) as [Hz|_];
    [by destruct p_audio_data|].
  by rewrite process_hops_short.
Qed.

Lemma process_short_block_witness :
  process RefLibm.libm 1 loaded_context [(F32.one, F32.half)]
    (target_sample_rate loaded_context) =
  Some ([],
        mkLipSyncContext (processor loaded_context)
          (Some (mkOnnxModel (Some five_value_session)))
          (audio_buffer loaded_context ++ downmix [(F32.one, F32.half)])
          (feature_buffer loaded_context) (context_size loaded_context)
          (target_sample_rate loaded_context) (resample_fraction loaded_context)).
Proof.
  apply process_short_block; [reflexivity|discriminate|lazy; lia].
Defined.

(** X5. When [process] returns, it returns the empty array at once (null
    handle or empty block) or it has drained the accumulation buffer below
    one hop: fewer than 160 samples are left, and the loop needed no more
    rounds than the buffer had samples. *)
Theorem process_drains_buffer (lm : Libm) (fuel : nat) (c : LipSyncContext)
    (p_audio_data : list (float * float)) (p_source_sample_rate : Z) :
  match process lm fuel c p_audio_data p_source_sample_rate with
  | Some (r, c') =>
      (model c = None \/ p_audio_data = []) /\ r = [] /\ c' = c \/
      length (audio_buffer c') < 160
  | None => True
  end.
Proof.
  unfold process. destruct (model c) as [m|]; [|left; auto].
  destruct (Nat.eqb_spec (length p_audio_data) 0) as [Hz|_].
  { left. destruct p_audio_data; [auto|done]. }
  destruct (process_hops lm fuel m c p_audio_data p_source_sample_rate)
    as [[new c1]|] eqn:Hhops; [|done].
  right. by apply process_hops_spec in Hhops as (_ & _ & _ & _ & _ & Hexit).
Qed.

(** X6. While no session is open, [process] never returns a prediction:
    whenever it returns, the array is empty. *)
Theorem process_unloaded_is_empty (lm : Libm) (fuel : nat) (c : LipSyncContext)
    (p_audio_data : list (float * float)) (p_source_sample_rate : Z) :
  match process lm fuel c p_audio_data p_source_sample_rate with
  | Some (r, _) => model_loaded c = true \/ r = []
  | None => True
  end.
Proof.
  destruct (process lm fuel c p_audio_data p_source_sample_rate) as [[r c']|] eqn:Hp;
    [|done].
  unfold model_loaded. destruct (model c) as [m|] eqn:Hm.
  - destruct (session m) eqn:Hs; [by left|right].
    by apply (process_session_null lm fuel c c' m p_audio_data
                p_source_sample_rate r).
  - right. unfold process in Hp. rewrite Hm in Hp. by injection Hp as <- _.
Qed.

(** ** Further properties of the processor *)

(** X7. On an input of exactly [hop_length] samples [process_frame]
    returns a vector of [n_mels] values. *)
Theorem process_frame_returns_n_mels (lm : Libm) (p : AudioProcessor)
    (p_samples : list float) :
  Z.of_nat (length p_samples) = hop_length p ->
  length (fst (process_frame lm p p_samples)) = Z.to_nat (n_mels p).
Proof.
  intros Hhop. unfold process_frame. rewrite Hhop, Z.eqb_refl. cbn [negb fst].
  by rewrite normalize_frame_length, mel_energies_length.
Qed.

Lemma process_frame_returns_n_mels_witness :
  length (fst (process_frame RefLibm.libm small_processor [F32.one])) =
  Z.to_nat (n_mels small_processor).
Proof. apply process_frame_returns_n_mels. reflexivity. Defined.

(** X8. In every processor a host can reach, the window buffer has
    [window_length] elements and the overlap buffer
    [max 0 (window_length - hop_length)]; with a hop that is not negative
    the overlap is no longer than the window buffer, which is what the
    copy loops of [process_frame] need to stay inside both. *)
Theorem processor_buffers_sized (lm : Libm) (p : AudioProcessor) :
  processor_reachable lm p ->
  buffers_sized p /\
  ((0 <= hop_length p)%Z ->
   length (previous_samples p) <= length (window_buffer p)).
Proof.
  intros Hreach.
  assert (Hsized : buffers_sized p).
  { induction Hreach as [|v p _ IH|v p _ IH|v p _ IH|v p _ IH|v p _ IH
                         |lo hi p _ IH|p _ IH|samples p _ IH].
    - apply buffers_sized_new.
    - apply (buffers_sized_setters lm p v F32.zero F32.zero IH).
    - apply (buffers_sized_setters lm p v F32.zero F32.zero IH).
    - apply (buffers_sized_setters lm p v F32.zero F32.zero IH).
    - apply (buffers_sized_setters lm p v F32.zero F32.zero IH).
    - apply (buffers_sized_setters lm p v F32.zero F32.zero IH).
    - apply (buffers_sized_setters lm p 0%Z lo hi IH).
    - destruct IH as [Hwb _]. split; [exact Hwb|].
      rewrite reset_previous_samples, length_replicate. done.
    - by apply buffers_sized_process_frame. }
  split; [done|]. destruct Hsized as [Hwb Hprev]. intros Hhop. lia.
Qed.

Lemma processor_buffers_sized_witness :
  buffers_sized small_processor /\
  ((0 <= hop_length small_processor)%Z ->
   length (previous_samples small_processor)
     <= length (window_buffer small_processor)).
Proof.
  apply (processor_buffers_sized RefLibm.libm).
  apply reach_set_window_length, reach_set_hop_length, reach_new.
Defined.

(** ** Inference engine boundary: the input shape *)

Lemma resolve_dynamic_dims_scan_from (rest done : list Z) (k dyn : Z) :
  fold_left
    (fun acc i =>
       (fun (i : nat) '(known_size, dynamic_dim_index, input_shape) =>
          if (input_shape !!! i <? 0)%Z then
            if negb (dynamic_dim_index =? -1)%Z
            then (known_size, dynamic_dim_index, <[i := 1%Z]> input_shape)
            else (known_size, Z.of_nat i, input_shape)
          else ((known_size * input_shape !!! i)%Z, dynamic_dim_index, input_shape))
         i acc)
    (seq (length done) (length rest)) (k, dyn, done ++ rest) =
  let '(k', dyn', r) := scan_dims k dyn (length done) rest in (k', dyn', done ++ r).
Proof.
  revert done k dyn. induction rest as [|d rest IH]; intros done k dyn.
  - reflexivity.
  - cbn [length seq fold_left scan_dims].
    assert (Hread : (done ++ d :: rest) !!! length done = d).
    { apply list_lookup_total_correct. by rewrite list_lookup_middle. }
    rewrite Hread.
    assert (Hnext : forall x, done ++ x :: rest = (done ++ [x]) ++ rest)
      by (intros x; by rewrite <- app_assoc).
    assert (Hlen : forall x, S (length done) = length (done ++ [x]))
      by (intros x; rewrite length_app; cbn; lia).
    destruct (d <? 0)%Z.
    + destruct (negb (dyn =? -1)%Z).
      * rewrite insert_app_r_alt, Nat.sub_diag by lia. cbn [insert list_insert].
        rewrite (Hnext 1%Z), (Hlen 1%Z), IH.
        destruct (scan_dims k dyn (length (done ++ [1%Z])) rest) as [[k' dyn'] r].
        by rewrite <- app_assoc.
      * rewrite (Hnext d), (Hlen d), IH.
        destruct (scan_dims k (Z.of_nat (length done)) (length (done ++ [d])) rest)
          as [[k' dyn'] r].
        by rewrite <- app_assoc.
    + rewrite (Hnext d), (Hlen d), IH.
      destruct (scan_dims (k * d) dyn (length (done ++ [d])) rest) as [[k' dyn'] r].
      by rewrite <- app_assoc.
Qed.

Lemma resolve_dynamic_dims_scan (input_shape : list Z) :
  resolve_dynamic_dims input_shape = scan_dims 1 (-1) 0 input_shape.
Proof.
  unfold resolve_dynamic_dims, for_loop.
  pose proof (resolve_dynamic_dims_scan_from input_shape [] 1%Z (-1)%Z) as H.
  cbn [length app] in H. rewrite H.
  by destruct (scan_dims 1 (-1) 0 input_shape) as [[k dyn] r].
Qed.

(** Once a dynamic dimension has been found, the others become 1. *)
Lemma scan_dims_seen (rest : list Z) (k dyn : Z) (i : nat) :
  dyn <> (-1)%Z ->
  let '(k', dyn', r) := scan_dims k dyn i rest in
  dyn' = dyn /\ length r = length rest /\ Forall (fun d => 0 <= d)%Z r /\
  k' = (k * element_count r)%Z /\
  (forall j d, rest !! j = Some d -> (0 <= d)%Z -> r !! j = Some d).
Proof.
  intros Hdyn. revert k i. induction rest as [|d rest IH]; intros k i; cbn [scan_dims].
  - split_and!; try done. cbn. lia.
  - destruct (Z.ltb_spec d 0) as [Hneg|Hpos].
    + destruct (Z.eqb_spec dyn (-1)) as [|_]; [done|]. cbn [negb].
      specialize (IH k (S i)). destruct (scan_dims k dyn (S i) rest) as [[k' dyn'] r].
      destruct IH as (-> & Hlen & Hall & -> & Hkeep).
      split_and!; try done.
      * cbn [length]. lia.
      * constructor; [lia|done].
      * unfold element_count. cbn [foldr]. fold (element_count r). lia.
      * intros [|j] x; cbn; [intros [= ->]; lia|apply Hkeep].
    + specialize (IH (k * d)%Z (S i)).
      destruct (scan_dims (k * d) dyn (S i) rest) as [[k' dyn'] r].
      destruct IH as (-> & Hlen & Hall & -> & Hkeep).
      split_and!; try done.
      * cbn [length]. lia.
      * constructor; done.
      * unfold element_count. cbn [foldr]. fold (element_count r). lia.
      * intros [|j] x; cbn; [done|apply Hkeep].
Qed.

(** Before any dynamic dimension has been found. *)
Lemma scan_dims_fresh (rest : list Z) (k : Z) (i : nat) :
  let '(k', dyn', r) := scan_dims k (-1) i rest in
  length r = length rest /\
  (forall j d, rest !! j = Some d -> (0 <= d)%Z -> r !! j = Some d) /\
  ((dyn' = (-1)%Z /\ r = rest /\ Forall (fun d => 0 <= d)%Z rest /\
    k' = (k * element_count rest)%Z) \/
   (exists n, dyn' = Z.of_nat (i + n) /\ n < length rest /\
      (exists d, rest !! n = Some d /\ (d < 0)%Z) /\
      forall q, (0 <= q)%Z ->
        Forall (fun d => 0 <= d)%Z (<[n := q]> r) /\
        (k * element_count (<[n := q]> r) = k' * q)%Z)).
Proof.
  revert k i. induction rest as [|d rest IH]; intros k i; cbn [scan_dims].
  - split_and!; try done. left. split_and!; try done. cbn. lia.
  - destruct (Z.ltb_spec d 0) as [Hneg|Hpos].
    + cbn [Z.eqb negb].
      pose proof (scan_dims_seen rest k (Z.of_nat i) (S i) ltac:(lia)) as Hseen.
      destruct (scan_dims k (Z.of_nat i) (S i) rest) as [[k' dyn'] r].
      destruct Hseen as (-> & Hlen & Hall & -> & Hkeep).
      split_and!.
      * cbn [length]. lia.
      * intros [|j] x; cbn; [done|apply Hkeep].
      * right. exists 0. split_and!; [f_equal; lia|cbn; lia|by exists d|].
        intros q Hq. cbn [insert list_insert]. split; [by constructor|].
        unfold element_count. cbn [foldr]. fold (element_count r). lia.
    + specialize (IH (k * d)%Z (S i)).
      destruct (scan_dims (k * d) (-1) (S i) rest) as [[k' dyn'] r].
      destruct IH as (Hlen & Hkeep & Hcase).
      split_and!.
      * cbn [length]. lia.
      * intros [|j] x; cbn; [done|apply Hkeep].
      * destruct Hcase as [(-> & -> & Hall & ->)|(n & -> & Hn & Hneg & Hq)].
        -- left. split_and!; try done; [by constructor|].
           unfold element_count. cbn [foldr]. fold (element_count rest). lia.
        -- right. exists (S n). split_and!; [f_equal; lia|cbn; lia|done|].
           intros q Hq0. destruct (Hq q Hq0) as [Hall Hprod].
           cbn [insert list_insert]. split; [by constructor|].
           unfold element_count in Hprod |- *. cbn [foldr].
           rewrite <- Hprod. apply Z.mul_assoc.
Qed.

(** X17. The shape [run_inference] hands to the runtime.  Whenever the
    shape logic passes, the shape given to [CreateTensor] has as many
    dimensions as the shape the model declares, keeps every dimension
    that was not dynamic, has no negative dimension left, and its element
    count is exactly the size of the input array: the tensor is never
    created over a buffer of another size. *)
Theorem resolve_input_shape_sound (input_shape resolved : list Z) (input_size : Z) :
  (0 <= input_size)%Z ->
  resolve_input_shape input_shape input_size = ShapeResolved resolved ->
  length resolved = length input_shape /\
  Forall (fun d => 0 <= d)%Z resolved /\
  element_count resolved = input_size /\
  (forall j d, input_shape !! j = Some d -> (0 <= d)%Z -> resolved !! j = Some d).
Proof.
  intros Hsize. unfold resolve_input_shape. rewrite resolve_dynamic_dims_scan.
  pose proof (scan_dims_fresh input_shape 1 0) as Hscan.
  destruct (scan_dims 1 (-1) 0 input_shape) as [[k dyn] r].
  destruct Hscan as (Hlen & Hkeep &
    [(-> & -> & Hall & ->)|(n & -> & Hn & (dn & Hdn & Hneg) & Hq)]).
  - cbn [Z.eqb negb].
    destruct (Z.eqb_spec input_size (1 * element_count input_shape)) as [Heq|_];
      [|done].
    intros [= <-]. split_and!; try done. lia.
  - destruct (Z.eqb_spec (Z.of_nat (0 + n)) (-1)) as [|_]; [lia|]. cbn [negb].
    destruct (Z.eqb_spec k 0) as [|Hk]; [done|].
    destruct (Z.eqb_spec (Z.rem input_size k) 0) as [Hrem|_]; [|done].
    cbn [negb]. intros [= <-].
    cbn [Nat.add]. rewrite Nat2Z.id.
    assert (Hkpos : (0 <= k)%Z).
    { destruct (Hq 1%Z ltac:(lia)) as [Hall Hprod].
      assert (Hnn : forall l, Forall (fun d => 0 <= d)%Z l -> (0 <= element_count l)%Z).
      { induction 1 as [|x l Hx _ IH]; unfold element_count; cbn [foldr]; [lia|].
        fold (element_count l). nia. }
      specialize (Hnn _ Hall). lia. }
    assert (Hq0 : (0 <= Z.quot input_size k)%Z) by (apply Z.quot_pos; lia).
    destruct (Hq _ Hq0) as [Hall Hprod].
    split_and!.
    + by rewrite length_insert.
    + done.
    + pose proof (Z.quot_rem' input_size k). lia.
    + intros j d Hj Hd. destruct (decide (j = n)) as [->|Hne].
      * rewrite Hdn in Hj. injection Hj as ->. lia.
      * rewrite list_lookup_insert_ne by done. by apply Hkeep.
Qed.

Lemma resolve_input_shape_sound_witness :
  length [1; 2; 80]%Z = length [1; -1; 80]%Z /\
  Forall (fun d => 0 <= d)%Z [1; 2; 80]%Z /\
  element_count [1; 2; 80]%Z = 160%Z /\
  (forall j d, [1; -1; 80]%Z !! j = Some d -> (0 <= d)%Z ->
               [1; 2; 80]%Z !! j = Some d).
Proof.
  apply (resolve_input_shape_sound [1; -1; 80]%Z [1; 2; 80]%Z 160); [lia|reflexivity].
Defined.

(** The product of the dimensions that are not dynamic. *)
Lemma scan_dims_known (rest : list Z) (k dyn : Z) (i : nat) :
  let '(k', dyn', r) := scan_dims k dyn i rest in
  (In 0%Z rest -> k' = 0%Z) /\ (k = 0%Z -> k' = 0%Z) /\
  (dyn <> (-1)%Z \/ Exists (fun d => d < 0)%Z rest -> dyn' <> (-1)%Z).
Proof.
  revert k dyn i. induction rest as [|d rest IH]; intros k dyn i; cbn [scan_dims].
  - split_and!; [intros []|done|]. intros [H|H]; [done|]. by apply Exists_nil in H.
  - destruct (Z.ltb_spec d 0) as [Hneg|Hpos].
    + destruct (Z.eqb_spec dyn (-1)) as [->|Hdyn]; cbn [negb].
      * specialize (IH k (Z.of_nat i) (S i)).
        destruct (scan_dims k (Z.of_nat i) (S i) rest) as [[k' dyn'] r].
        destruct IH as (Hzero & Hk & Hd).
        split_and!; [intros [->|Hin]; [lia|auto]|done|]. intros _. apply Hd. left. lia.
      * specialize (IH k dyn (S i)).
        destruct (scan_dims k dyn (S i) rest) as [[k' dyn'] r].
        destruct IH as (Hzero & Hk & Hd).
        split_and!; [intros [->|Hin]; [lia|auto]|done|]. intros _. apply Hd. by left.
    + specialize (IH (k * d)%Z dyn (S i)).
      destruct (scan_dims (k * d) dyn (S i) rest) as [[k' dyn'] r].
      destruct IH as (Hzero & Hk & Hd).
      split_and!.
      * intros [->|Hin]; [apply Hk; lia|auto].
      * intros ->. apply Hk. lia.
      * intros [H|H]; [apply Hd; by left|].
        apply Exists_cons in H as [H|H]; [lia|]. apply Hd. by right.
Qed.

(** X18. A declared shape with a dynamic dimension and a dimension of
    size 0.  The product of the known dimensions is 0 and the divisibility
    test [p_input.size() % known_size] divides by zero: no guard stands
    before it, and the [catch] clause of [run_inference] only handles the
    exceptions of the runtime. *)
Theorem resolve_input_shape_zero_dimension (input_shape : list Z) (input_size : Z) :
  Exists (fun d => d < 0)%Z input_shape ->
  In 0%Z input_shape ->
  resolve_input_shape input_shape input_size = ShapeUndefined.
Proof.
  intros Hdyn Hzero. unfold resolve_input_shape. rewrite resolve_dynamic_dims_scan.
  pose proof (scan_dims_known input_shape 1 (-1) 0) as Hscan.
  destruct (scan_dims 1 (-1) 0 input_shape) as [[k dyn] r].
  destruct Hscan as (Hk & _ & Hd).
  rewrite (Hk Hzero). specialize (Hd (or_intror Hdyn)).
  destruct (Z.eqb_spec dyn (-1)) as [|_]; [done|]. reflexivity.
Qed.

Lemma resolve_input_shape_zero_dimension_witness :
  resolve_input_shape [0; -1; 80]%Z 160 = ShapeUndefined.
Proof.
  apply resolve_input_shape_zero_dimension.
  - apply Exists_cons_tl, Exists_cons_hd. lia.
  - left. reflexivity.
Defined.
